(** * Reservation engine of the event platform back end

    A shallow embedding of the RSVP controller
    ([src/controllers/rsvpController.js]) and of the two Mongoose models it
    works on ([src/models/Event.js], which also holds the RSVP schema),
    followed by the properties of the capacity gate, of the reservation
    ledger and of the lifecycle hook.

    The two collections are modelled as a store that is passed explicitly.
    Every [await]ed Mongoose call of a handler is one atomic operation on
    that store; a handler is given twice, once as the straight-line function
    that the source text is (run without interference), and once as a task
    that performs one store operation per step, so that several requests can
    be interleaved by a schedule.

    The listings of the RSVP controller, the event controller
    ([src/controllers/eventController.js]) and the account deletion of the
    user controller follow, as functions on the same store.

    Identifiers are well-formed [ObjectId]s and the store itself does not
    fail: the only error a handler sees is the one with [code = 11000],
    thrown by the duplicate hook of the RSVP model or by its unique index.
    Fields that no handler and no hook reads (titles, images, timestamps)
    are left out of the documents. The capacity of an event document is a
    whole number here; the schema admits any Number from 1 to 10000, and
    what the gate does with a fractional one is given apart
    ([gate_number]). *)

From Stdlib Require Import ZArith Lia List Bool.
From Stdlib Require QArith.
From stdpp Require Import base decidable option list gmap sorting.

Local Open Scope Z_scope.

(** Mongo [ObjectId]s, as handed over by the router and the auth middleware. *)
Abbreviation ObjectId := nat.

(** ** ECMAScript dates *)

Module JSDate.

(** The time value of a [Date]: integral milliseconds since the epoch, or
    [None] for NaN (an Invalid Date). *)
Definition t : Type := option Z.

Definition maxTime : Z := 8640000000000000.

(** [TimeClip]: a time value farther than 8.64e15 ms from the epoch is NaN. *)
Definition TimeClip (x : Z) : t :=
  if bool_decide (Z.abs x <= maxTime) then Some x else None.

(** [new Date(number)]; NaN stays NaN. *)
Definition ofNumber (x : option Z) : t :=
  match x with
  | Some v => TimeClip v
  | None => None
  end.

Definition getTime (d : t) : option Z := d.

(** [new Date(date)] copies the time value. *)
Definition copy (d : t) : t := ofNumber (getTime d).

(** Number addition with a finite constant. All operands stay below 2^53,
    so the double arithmetic of the source is exact. *)
Definition plus (x : option Z) (c : Z) : option Z :=
  match x with
  | Some v => Some (v + c)
  | None => None
  end.

(** Relational operators on dates compare time values; with NaN on either
    side they are false. *)
Definition lt (a b : t) : bool :=
  match a, b with
  | Some x, Some y => bool_decide (x < y)
  | _, _ => false
  end.

Definition ge (a b : t) : bool :=
  match a, b with
  | Some x, Some y => bool_decide (x >= y)
  | _, _ => false
  end.

Definition valid (x : Z) : Prop := Z.abs x <= maxTime.

End JSDate.

(** ** The Event model *)

Module Event.

Inductive Status := upcoming | ongoing | completed | cancelled.

#[global] Instance Status_eq_dec : EqDecision Status.
Proof. solve_decision. Defined.

(** The fields of [EventSchema] that the reservation logic and the hooks
    read or write. [date] is the time value of the stored [Date].
    [currentAttendees] starts at 0 and is changed by [$inc] of 1 and -1
    only, so it is a whole number; [capacity] is taken to be one as well
    (the schema only asks for a Number with [min 1] and [max 10000]). *)
Record doc := mk {
  capacity : Z;
  currentAttendees : Z;
  attendees : list ObjectId;
  status : Status;
  date : Z
}.

(** Virtuals. *)
Definition availableSpots (this : doc) : Z :=
  capacity this - currentAttendees this.

Definition isFull (this : doc) : bool :=
  bool_decide (currentAttendees this >= capacity this).

(** Update operators used by the controller. *)
Definition inc_currentAttendees (n : Z) (this : doc) : doc :=
  mk (capacity this) (currentAttendees this + n) (attendees this)
     (status this) (date this).

(** [$addToSet]: appended unless already present. *)
Definition addToSet_attendees (userId : ObjectId) (this : doc) : doc :=
  mk (capacity this) (currentAttendees this)
     (if bool_decide (userId ∈ attendees this) then attendees this
      else attendees this ++ [userId])
     (status this) (date this).

(** [$pull]: every occurrence removed. *)
Definition pull_attendees (userId : ObjectId) (this : doc) : doc :=
  mk (capacity this) (currentAttendees this)
     (List.filter (fun a => negb (Nat.eqb a userId)) (attendees this))
     (status this) (date this).

Definition set_status (s : Status) (this : doc) : doc :=
  mk (capacity this) (currentAttendees this) (attendees this) s (date this).

(** [findOneAndUpdate({_id, ...cond}, update, {new: true})] on the
    collection, keyed by [_id]: the matching document is replaced and the
    updated document returned; without a match nothing changes and the
    result is [null]. One atomic store operation. *)
Definition findOneAndUpdate (id : ObjectId) (cond : doc -> bool)
    (update : doc -> doc) (coll : gmap nat doc) : option doc * gmap nat doc :=
  match coll !! id with
  | Some ev =>
      if cond ev then (Some (update ev), <[id := update ev]> coll)
      else (None, coll)
  | None => (None, coll)
  end.

Definition findByIdAndUpdate (id : ObjectId) (update : doc -> doc)
    (coll : gmap nat doc) : option doc * gmap nat doc :=
  findOneAndUpdate id (fun _ => true) update coll.

(** [pre('save')], first hook: status from the date. [now] is the time
    value of [new Date()]. *)
Definition pre_save_status (now : Z) (this : doc) : doc :=
  let now := JSDate.TimeClip now in
  let eventDate := JSDate.copy (JSDate.TimeClip (date this)) in
  let eventEndTime :=
    JSDate.ofNumber (JSDate.plus (JSDate.getTime eventDate) (4 * 60 * 60 * 1000)) in
  if JSDate.lt now eventDate then set_status upcoming this
  else if JSDate.ge now eventDate && JSDate.lt now eventEndTime
    then set_status ongoing this
  else if JSDate.ge now eventEndTime then set_status completed this
  else this.

(** [pre('save')], second hook: throws when the counter is above capacity. *)
Definition pre_save_capacity (this : doc) : option doc :=
  if bool_decide (currentAttendees this > capacity this) then None
  else Some this.

End Event.

(** ** The RSVP model *)

Module RSVP.

Inductive Status := confirmed | cancelled | waitlist.

#[global] Instance Status_eq_dec : EqDecision Status.
Proof. solve_decision. Defined.

Record doc := mk {
  user : ObjectId;
  event : ObjectId;
  status : Status;
  cancellationDate : option Z
}.

#[global] Instance doc_eq_dec : EqDecision doc.
Proof. solve_decision. Defined.

Definition is_confirmed (d : doc) : bool :=
  bool_decide (status d = confirmed).

(** The filter [{ user: userId, event: eventId, status: 'confirmed' }]. *)
Definition q_confirmed (userId eventId : ObjectId) (d : doc) : bool :=
  Nat.eqb (user d) userId && Nat.eqb (event d) eventId && is_confirmed d.

(** The filter [{ event: eventId, status: 'confirmed' }]. *)
Definition q_event_confirmed (eventId : ObjectId) (d : doc) : bool :=
  Nat.eqb (event d) eventId && is_confirmed d.

(** The key of the compound index [{ user: 1, event: 1 }]. *)
Definition q_pair (userId eventId : ObjectId) (d : doc) : bool :=
  Nat.eqb (user d) userId && Nat.eqb (event d) eventId.

Definition findOne (q : doc -> bool) (coll : list doc) : option doc :=
  List.find q coll.

Definition countDocuments (q : doc -> bool) (coll : list doc) : nat :=
  length (List.filter q coll).

(** [findOneAndDelete]: the first match is removed and returned. *)
Fixpoint findOneAndDelete (q : doc -> bool) (coll : list doc)
    : option doc * list doc :=
  match coll with
  | [] => (None, [])
  | d :: rest =>
      if q d then (Some d, rest)
      else let '(r, rest') := findOneAndDelete q rest in (r, d :: rest')
  end.

Inductive Error := E11000.

(** First [pre('save')] hook, for a new document: a confirmed RSVP of the
    same pair makes it throw an error with [code = 11000]. *)
Definition pre_save_duplicate (this : doc) (coll : list doc) : option Error :=
  match findOne (q_confirmed (user this) (event this)) coll with
  | Some _ => Some E11000
  | None => None
  end.

(** Second [pre('save')] hook: stamps the cancellation date when the status
    was modified to cancelled. [now] is the clock reading. *)
Definition pre_save_cancellation (isModifiedStatus : bool) (now : Z)
    (this : doc) : doc :=
  if isModifiedStatus && bool_decide (status this = cancelled)
  then mk (user this) (event this) (status this) (Some now)
  else this.

(** The insert itself, under the unique index on (user, event): a document
    with the same key, whatever its status, is a duplicate-key error. *)
Definition insertOne (this : doc) (coll : list doc) : Error + list doc :=
  if existsb (q_pair (user this) (event this)) coll then inl E11000
  else inr (coll ++ [this]).

(** [RSVP.create({user, event, status: 'confirmed'})] run without
    interference: the hooks, then the insert. The new status is confirmed,
    so the cancellation hook leaves the document as it is. *)
Definition create (userId eventId : ObjectId) (coll : list doc)
    : Error + list doc :=
  let this := mk userId eventId confirmed None in
  match pre_save_duplicate this coll with
  | Some e => inl e
  | None => insertOne this coll
  end.

End RSVP.

(** ** The store *)

Record DB := mkDB {
  events : gmap nat Event.doc;
  rsvps : list RSVP.doc
}.

(** ** Responses of the RSVP controller *)

Inductive Response :=
| Created (availableSpots : Z)        (* 201 'RSVP confirmed successfully' *)
| AlreadyRSVPd                        (* 400 'You have already RSVP'd to this event' *)
| FullOrMissing                       (* 400 'Event is full or does not exist' *)
| RSVPNotFound                        (* 404 'RSVP not found' *)
| EventNotFound                       (* 404 'Event not found' *)
| Cancelled (availableSpots : Z)      (* 200 'RSVP cancelled successfully' *)
| StatusOf (hasRSVP : bool) (rsvp : option RSVP.doc).  (* 200 *)



(** ** The controller, run without interference *)

(** The capacity gate of [createRSVP]: filter
    [{ _id, $expr: { $lt: ['$currentAttendees', '$capacity'] } }], update
    [{ $inc: { currentAttendees: 1 }, $addToSet: { attendees: userId } }]. *)
Definition gate (eventId userId : ObjectId) (coll : gmap nat Event.doc)
    : option Event.doc * gmap nat Event.doc :=
  Event.findOneAndUpdate eventId
    (fun ev => bool_decide (Event.currentAttendees ev < Event.capacity ev))
    (fun ev => Event.addToSet_attendees userId (Event.inc_currentAttendees 1 ev))
    coll.

(** The update of [cancelRSVP]:
    [{ $inc: { currentAttendees: -1 }, $pull: { attendees: userId } }]. *)
Definition release (eventId userId : ObjectId) (coll : gmap nat Event.doc)
    : option Event.doc * gmap nat Event.doc :=
  Event.findByIdAndUpdate eventId
    (fun ev => Event.pull_attendees userId (Event.inc_currentAttendees (-1) ev))
    coll.

(** [exports.createRSVP]. The [catch] branch answers an error with
    [code === 11000] by a 400 and does nothing else. The populate query that
    follows the insert only decorates the response. *)
Definition createRSVP (eventId userId : ObjectId) (db : DB) : DB * Response :=
  match RSVP.findOne (RSVP.q_confirmed userId eventId) (rsvps db) with
  | Some _ => (db, AlreadyRSVPd)
  | None =>
      match gate eventId userId (events db) with
      | (None, _) => (db, FullOrMissing)
      | (Some event, events') =>
          match RSVP.create userId eventId (rsvps db) with
          | inl RSVP.E11000 => (mkDB events' (rsvps db), AlreadyRSVPd)
          | inr rsvps' =>
              (mkDB events' rsvps',
               Created (Event.capacity event - Event.currentAttendees event))
          end
      end
  end.

(** [exports.cancelRSVP]. *)
Definition cancelRSVP (eventId userId : ObjectId) (db : DB) : DB * Response :=
  match RSVP.findOneAndDelete (RSVP.q_confirmed userId eventId) (rsvps db) with
  | (None, _) => (db, RSVPNotFound)
  | (Some _, rsvps') =>
      match release eventId userId (events db) with
      | (None, _) => (mkDB (events db) rsvps', EventNotFound)
      | (Some event, events') =>
          (mkDB events' rsvps',
           Cancelled (Event.capacity event - Event.currentAttendees event))
      end
  end.

(** [exports.checkRSVPStatus]. *)
Definition checkRSVPStatus (eventId userId : ObjectId) (db : DB) : DB * Response :=
  let rsvp := RSVP.findOne (RSVP.q_confirmed userId eventId) (rsvps db) in
  (db, StatusOf (bool_decide (is_Some rsvp)) rsvp).

(** ** Requests in flight

    A handler suspended at an [await]: the store operation it will perform
    next, with the locals it has bound so far. [RSVP.create] takes two store
    operations, the query of its duplicate hook and the insert. *)

Inductive Request :=
| Join (eventId userId : ObjectId)        (* POST   /event/:eventId *)
| Leave (eventId userId : ObjectId)       (* DELETE /event/:eventId *)
| Status (eventId userId : ObjectId).     (* GET    /event/:eventId/status *)

Inductive Task :=
| JoinFindOne (eventId userId : ObjectId)
| JoinGate (eventId userId : ObjectId)
| JoinPreSave (eventId userId : ObjectId) (event : Event.doc)
| JoinInsert (eventId userId : ObjectId) (event : Event.doc)
| LeaveFindOneAndDelete (eventId userId : ObjectId)
| LeaveUpdate (eventId userId : ObjectId)
| StatusFindOne (eventId userId : ObjectId)
| Responded (r : Response).

Definition start (r : Request) : Task :=
  match r with
  | Join e u => JoinFindOne e u
  | Leave e u => LeaveFindOneAndDelete e u
  | Status e u => StatusFindOne e u
  end.

(** One store operation of one handler. *)
Definition step (t : Task) (db : DB) : DB * Task :=
  match t with
  | JoinFindOne e u =>
      match RSVP.findOne (RSVP.q_confirmed u e) (rsvps db) with
      | Some _ => (db, Responded AlreadyRSVPd)
      | None => (db, JoinGate e u)
      end
  | JoinGate e u =>
      match gate e u (events db) with
      | (None, _) => (db, Responded FullOrMissing)
      | (Some event, events') => (mkDB events' (rsvps db), JoinPreSave e u event)
      end
  | JoinPreSave e u event =>
      match RSVP.pre_save_duplicate (RSVP.mk u e RSVP.confirmed None) (rsvps db) with
      | Some RSVP.E11000 => (db, Responded AlreadyRSVPd)
      | None => (db, JoinInsert e u event)
      end
  | JoinInsert e u event =>
      match RSVP.insertOne (RSVP.mk u e RSVP.confirmed None) (rsvps db) with
      | inl RSVP.E11000 => (db, Responded AlreadyRSVPd)
      | inr rsvps' =>
          (mkDB (events db) rsvps',
           Responded (Created (Event.capacity event - Event.currentAttendees event)))
      end
  | LeaveFindOneAndDelete e u =>
      match RSVP.findOneAndDelete (RSVP.q_confirmed u e) (rsvps db) with
      | (None, _) => (db, Responded RSVPNotFound)
      | (Some _, rsvps') => (mkDB (events db) rsvps', LeaveUpdate e u)
      end
  | LeaveUpdate e u =>
      match release e u (events db) with
      | (None, _) => (db, Responded EventNotFound)
      | (Some event, events') =>
          (mkDB events' (rsvps db),
           Responded (Cancelled (Event.capacity event - Event.currentAttendees event)))
      end
  | StatusFindOne e u =>
      let rsvp := RSVP.findOne (RSVP.q_confirmed u e) (rsvps db) in
      (db, Responded (StatusOf (bool_decide (is_Some rsvp)) rsvp))
  | Responded r => (db, Responded r)
  end.

(** The server: the store and the handlers in flight. The event loop resumes
    one handler at a time; a schedule lists which. *)
Definition Server : Type := DB * list Task.

Definition resume (i : nat) (s : Server) : Server :=
  match s.2 !! i with
  | Some t => let '(db', t') := step t s.1 in (db', <[i := t']> s.2)
  | None => s
  end.

Definition exec (schedule : list nat) (s : Server) : Server :=
  foldl (fun s i => resume i s) s schedule.

Definition boot (db : DB) (requests : list Request) : Server :=
  (db, start <$> requests).

(** A handler run alone up to its response. No handler awaits the store more
    than four times. *)
Definition run_alone (r : Request) (db : DB) : DB * Task :=
  let '(db1, t1) := step (start r) db in
  let '(db2, t2) := step t1 db1 in
  let '(db3, t3) := step t2 db2 in
  step t3 db3.

(** Requests served one after the other. *)
Definition handle (r : Request) (db : DB) : DB * Response :=
  match r with
  | Join e u => createRSVP e u db
  | Leave e u => cancelRSVP e u db
  | Status e u => checkRSVPStatus e u db
  end.

Definition serve_all (requests : list Request) (db : DB) : DB :=
  foldl (fun db r => (handle r db).1) db requests.

(** ** Predicates on the store *)

(** The counter of every event is the number of its confirmed RSVPs. *)
Definition counters_agree (db : DB) : Prop :=
  forall e ev, events db !! e = Some ev ->
    Event.currentAttendees ev =
    Z.of_nat (RSVP.countDocuments (RSVP.q_event_confirmed e) (rsvps db)).

Definition within_capacity (db : DB) : Prop :=
  forall e ev, events db !! e = Some ev ->
    Event.currentAttendees ev <= Event.capacity ev.

(** What the unique index on (user, event) guarantees of the collection. *)
Definition unique_index (coll : list RSVP.doc) : Prop :=
  forall u e, (RSVP.countDocuments (RSVP.q_pair u e) coll <= 1)%nat.

(** Only confirmed records: [RSVP.create] in [createRSVP] is the one place
    that writes a reservation, and it writes status confirmed. *)
Definition all_confirmed (coll : list RSVP.doc) : Prop :=
  Forall (fun d => RSVP.status d = RSVP.confirmed) coll.

Definition has_confirmed (u e : ObjectId) (coll : list RSVP.doc) : Prop :=
  exists d, d ∈ coll /\ RSVP.user d = u /\ RSVP.event d = e /\
            RSVP.status d = RSVP.confirmed.

(** Every reservation references a stored event. *)
Definition references_resolve (db : DB) : Prop :=
  forall d, d ∈ rsvps db -> is_Some (events db !! RSVP.event d).

(** The counter of event [e], when it is stored. *)
Definition attendeesOf (e : ObjectId) (db : DB) : option Z :=
  Event.currentAttendees <$> events db !! e.

(** The same store with the status of event [e] overwritten. *)
Definition with_status (e : ObjectId) (s : Event.Status) (db : DB) : DB :=
  mkDB (alter (Event.set_status s) e (events db)) (rsvps db).

(** ** The lifecycle as the specification words it *)

Definition deriveStatus (scheduledAt durationHint now : Z) : Event.Status :=
  if bool_decide (now < scheduledAt) then Event.upcoming
  else if bool_decide (now < scheduledAt + durationHint) then Event.ongoing
  else Event.completed.

Definition fourHours : Z := 4 * 60 * 60 * 1000.

(** ** Sample stores *)

Definition ev0 (cap cur : Z) (st : Event.Status) : Event.doc :=
  Event.mk cap cur [] st 0.

Definition fresh_db : DB := mkDB {[ 1%nat := ev0 2 0 Event.upcoming ]} [].

(** ** Further parts of the Event model *)

(** [EventSchema.methods.isUserAttending]: some attendee has the id. *)
Definition isUserAttending (userId : ObjectId) (this : Event.doc) : bool :=
  existsb (fun attendee => Nat.eqb attendee userId) (Event.attendees this).

(** ** Bookkeeping for handlers in flight *)

(** A handler between its two writes holds one unit of the counter of its
    event that no confirmed record accounts for: a Join that has passed the
    gate and not yet inserted, a Leave that has deleted and not yet
    decremented. *)
Definition holds_slot (e : ObjectId) (t : Task) : nat :=
  match t with
  | JoinPreSave e' _ _ | JoinInsert e' _ _ | LeaveUpdate e' _ =>
      if Nat.eqb e' e then 1 else 0
  | _ => 0
  end.

Definition slots_in_flight (e : ObjectId) (ts : list Task) : nat :=
  sum_list (holds_slot e <$> ts).

(** Every counter covers the confirmed records of its event and the
    handlers in flight on it. *)
Definition counters_cover (s : Server) : Prop :=
  forall e ev, events s.1 !! e = Some ev ->
    Z.of_nat (RSVP.countDocuments (RSVP.q_event_confirmed e) (rsvps s.1)) +
    Z.of_nat (slots_in_flight e s.2) <= Event.currentAttendees ev.

Definition attendees_nodup (db : DB) : Prop :=
  forall e ev, events db !! e = Some ev -> NoDup (Event.attendees ev).

(** What the organizer set: the same events, each with the same capacity,
    status and date. *)
Definition settings (ev : Event.doc) : Z * Event.Status * Z :=
  (Event.capacity ev, Event.status ev, Event.date ev).

Definition same_settings (db0 db : DB) : Prop :=
  forall e, settings <$> events db !! e = settings <$> events db0 !! e.

(** The attendees array of every event lists, once each, the users with a
    confirmed reservation for it, and the counter is its length. *)
Definition roster_agrees (db : DB) : Prop :=
  forall e ev, events db !! e = Some ev ->
    NoDup (Event.attendees ev) /\
    (forall u, u ∈ Event.attendees ev <-> has_confirmed u e (rsvps db)) /\
    Event.currentAttendees ev = Z.of_nat (length (Event.attendees ev)).

(** A store as the handlers, run one at a time, keep it. *)
Definition ledger_sound (db : DB) : Prop :=
  all_confirmed (rsvps db) /\ unique_index (rsvps db) /\ roster_agrees db.

(** ** The event controller and account deletion

    [src/controllers/eventController.js] and [deleteAccount] of the user
    controller. The [organizer] field of the event documents is kept beside
    the documents, under the same [_id]. *)

Record Platform := mkPlatform {
  store : DB;
  organizerOf : gmap nat ObjectId
}.

Inductive EventResponse :=
| EventCreated (id : ObjectId) (event : Event.doc)  (* 201 'Event created successfully' *)
| MissingFields               (* 400 'Please provide all required fields' *)
| EventUpdated (event : Event.doc)                  (* 200 'Event updated successfully' *)
| BelowAttendees (currentAttendees : Z)
                              (* 400 'Cannot reduce capacity below current attendees' *)
| EventDeleted                (* 200 'Event deleted successfully' *)
| NoSuchEvent                 (* 404 'Event not found' *)
| NotAuthorized               (* 403 'Not authorized to ... this event' *)
| ServerError.                (* 500, from the catch branch *)

(** [RSVP.deleteMany(filter)]. *)
Definition deleteMany (q : RSVP.doc -> bool) (coll : list RSVP.doc)
    : list RSVP.doc :=
  List.filter (fun d => negb (q d)) coll.


Definition q_user (userId : ObjectId) (d : RSVP.doc) : bool :=
  Nat.eqb (RSVP.user d) userId.

(** The text fields of a request body (title, description, location,
    image), as far as the handler tells them apart: one is missing or
    empty, or all are given and one of them (or the category) breaks a
    schema validator, or all are given and valid. *)
Inductive TextFields := TextMissing | TextInvalid | TextValid.

Record CreateBody := mkCreateBody {
  texts : TextFields;
  b_date : option Z;
  b_capacity : option Z
}.

(** [Event.create] for the document of [createEvent]: validation (date in
    the future for a new document, capacity from 1 to 10000), then the two
    save hooks, then the insert under a fresh [_id]; every failure is an
    exception. [nowV] and [nowH] are the clock readings of the date
    validator and of the status hook. *)
Definition Event_create (newId userId : ObjectId) (nowV nowH : Z)
    (txt : TextFields) (date capacity : Z) (p : Platform)
    : option (Event.doc * Platform) :=
  let this := Event.mk capacity 0 [] Event.upcoming date in
  if negb (JSDate.lt (JSDate.TimeClip nowV) (JSDate.TimeClip date)) then None
  else if (capacity <? 1) || (10000 <? capacity) then None
  else match txt with
       | TextValid =>
           match Event.pre_save_capacity (Event.pre_save_status nowH this) with
           | None => None
           | Some event =>
               match events (store p) !! newId with
               | Some _ => None
               | None =>
                   Some (event,
                         mkPlatform
                           (mkDB (<[newId := event]> (events (store p)))
                                 (rsvps (store p)))
                           (<[newId := userId]> (organizerOf p)))
               end
           end
       | _ => None
       end.

(** [exports.createEvent]. The date and the capacity of the body are JSON
    numbers; a 0 is falsy and counts as missing. *)
Definition createEvent (newId userId : ObjectId) (nowV nowH : Z)
    (body : CreateBody) (p : Platform) : Platform * EventResponse :=
  match texts body, b_date body, b_capacity body with
  | TextMissing, _, _ | _, None, _ | _, _, None => (p, MissingFields)
  | txt, Some date, Some capacity =>
      if (date =? 0) || (capacity =? 0) then (p, MissingFields)
      else match Event_create newId userId nowV nowH txt date capacity p with
           | Some (event, p') => (p', EventCreated newId event)
           | None => (p, ServerError)
           end
  end.




(** [exports.deleteAccount]: the events organized by the user, then the
    reservations of the user. (The user document itself is not modelled.) *)
Definition deleteAccount (userId : ObjectId) (p : Platform) : Platform :=
  mkPlatform
    (mkDB (filter (fun kv : nat * Event.doc =>
                     organizerOf p !! kv.1 <> Some userId) (events (store p)))
          (deleteMany (q_user userId) (rsvps (store p))))
    (filter (fun kv : nat * ObjectId => kv.2 <> userId) (organizerOf p)).

(** Every stored event has its organizer, which the schema requires. *)
Definition organizers_recorded (p : Platform) : Prop :=
  forall id, is_Some (events (store p) !! id) <-> is_Some (organizerOf p !! id).

(** ** The listings of the RSVP controller *)

(** The body of a listing response: [count] and [data]. *)
Record Listing := mkListing {
  count : nat;
  data : list RSVP.doc
}.

(** The filter [{ user: userId, status }]. *)
Definition q_user_status (userId : ObjectId) (status : RSVP.Status)
    (d : RSVP.doc) : bool :=
  Nat.eqb (RSVP.user d) userId && bool_decide (RSVP.status d = status).

Section Listings.

(** The [createdAt] stamp that [timestamps: true] gives every record. *)
Variable createdAt : RSVP.doc -> Z.

(** [RSVP.find(filter).sort({ createdAt: 1 })] and [.sort({ createdAt: -1 })]. *)
Definition find_sorted_ascending (q : RSVP.doc -> bool) (coll : list RSVP.doc)
    : list RSVP.doc :=
  @merge_sort _ (fun a b => createdAt a <= createdAt b)
    (fun a b => decide_rel Z.le (createdAt a) (createdAt b))
    (List.filter q coll).

Definition find_sorted_descending (q : RSVP.doc -> bool) (coll : list RSVP.doc)
    : list RSVP.doc :=
  @merge_sort _ (fun a b => createdAt b <= createdAt a)
    (fun a b => decide_rel Z.le (createdAt b) (createdAt a))
    (List.filter q coll).

(** [exports.getEventAttendees]. *)
Definition getEventAttendees (eventId : ObjectId) (db : DB) : DB * Listing :=
  let rsvps := find_sorted_ascending (RSVP.q_event_confirmed eventId) (rsvps db) in
  (db, mkListing (length rsvps) rsvps).

(** [exports.getUserRSVPs]; the [status] of the query string defaults to
    confirmed. (A status outside the enum matches no record and is not
    modelled.) *)
Definition getUserRSVPs (userId : ObjectId) (status : option RSVP.Status)
    (db : DB) : DB * Listing :=
  let status := default RSVP.confirmed status in
  let rsvps := find_sorted_descending (q_user_status userId status) (rsvps db) in
  (db, mkListing (length rsvps) rsvps).

End Listings.

(** ** The gate on a capacity that is not a whole number

    [EventSchema.capacity] is a Number with [min 1] and [max 10000] and no
    integer validator, so [createEvent] and [updateEvent] store a
    fractional capacity as it is given. The gate of [createRSVP] on one
    document with such a capacity: the filter
    [$expr: { $lt: ['$currentAttendees', '$capacity'] }] and the update
    [$inc: { currentAttendees: 1 }], which gives the new counter, or no
    match. *)

Definition capacity_validators (capacity : QArith_base.Q) : bool :=
  QArith_base.Qle_bool (QArith_base.inject_Z 1) capacity &&
  QArith_base.Qle_bool capacity (QArith_base.inject_Z 10000).

Definition gate_number (capacity : QArith_base.Q) (currentAttendees : Z)
    : option Z :=
  if negb (QArith_base.Qle_bool capacity (QArith_base.inject_Z currentAttendees))
  then Some (currentAttendees + 1)
  else None.

(** * Facts about the store operations *)

Section Queries.

Implicit Types (q : RSVP.doc -> bool) (coll : list RSVP.doc) (d : RSVP.doc).

Lemma q_confirmed_spec u e d :
  RSVP.q_confirmed u e d = true <->
  RSVP.user d = u /\ RSVP.event d = e /\ RSVP.status d = RSVP.confirmed.
Proof.
  unfold RSVP.q_confirmed, RSVP.is_confirmed.
  rewrite !andb_true_iff, !Nat.eqb_eq, bool_decide_eq_true. tauto.
Qed.

Lemma q_pair_spec u e d :
  RSVP.q_pair u e d = true <-> RSVP.user d = u /\ RSVP.event d = e.
Proof. unfold RSVP.q_pair. rewrite andb_true_iff, !Nat.eqb_eq. tauto. Qed.

Lemma q_event_confirmed_spec e d :
  RSVP.q_event_confirmed e d = true <->
  RSVP.event d = e /\ RSVP.status d = RSVP.confirmed.
Proof.
  unfold RSVP.q_event_confirmed, RSVP.is_confirmed.
  rewrite andb_true_iff, Nat.eqb_eq, bool_decide_eq_true. tauto.
Qed.

Lemma findOne_None q coll :
  RSVP.findOne q coll = None <-> forall d, d ∈ coll -> q d = false.
Proof.
  unfold RSVP.findOne. induction coll as [|x l IH]; simpl.
  - split; [intros _ d Hd; inversion Hd | done].
  - destruct (q x) eqn:Hx.
    + split; [done | intros H; specialize (H x (list_elem_of_here _ _)); congruence].
    + rewrite IH. split.
      * intros H d Hd. apply elem_of_cons in Hd as [->|Hd]; auto.
      * intros H d Hd. apply H. by apply list_elem_of_further.
Qed.

Lemma findOne_Some q coll d :
  RSVP.findOne q coll = Some d -> d ∈ coll /\ q d = true.
Proof.
  unfold RSVP.findOne. intros H. apply find_some in H as [Hin Hq].
  split; [by apply list_elem_of_In | done].
Qed.

Lemma findOne_confirmed_None u e coll :
  RSVP.findOne (RSVP.q_confirmed u e) coll = None <-> ~ has_confirmed u e coll.
Proof.
  rewrite findOne_None. unfold has_confirmed. split.
  - intros H (d & Hd & Hq). specialize (H d Hd).
    assert (RSVP.q_confirmed u e d = true) by (by apply q_confirmed_spec).
    congruence.
  - intros H d Hd. destruct (RSVP.q_confirmed u e d) eqn:Hq; [|done].
    exfalso. apply H. exists d. split; [done|]. by apply q_confirmed_spec.
Qed.

Lemma findOne_confirmed_is_Some u e coll :
  is_Some (RSVP.findOne (RSVP.q_confirmed u e) coll) <-> has_confirmed u e coll.
Proof.
  destruct (RSVP.findOne (RSVP.q_confirmed u e) coll) as [d|] eqn:H.
  - split; [intros _ | by eauto].
    apply findOne_Some in H as [Hin Hq]. apply q_confirmed_spec in Hq.
    exists d. tauto.
  - apply findOne_confirmed_None in H. split; [intros [? ?]; done | done].
Qed.

(** The shape of a deletion: the first match is cut out of the collection. *)
Lemma findOneAndDelete_spec q coll :
  match RSVP.findOneAndDelete q coll with
  | (None, coll') => coll' = coll /\ RSVP.findOne q coll = None
  | (Some d, coll') =>
      exists l1 l2, coll = l1 ++ d :: l2 /\ coll' = l1 ++ l2 /\
                    q d = true /\ (forall x, x ∈ l1 -> q x = false)
  end.
Proof.
  unfold RSVP.findOne. induction coll as [|x l IH]; simpl; [done|].
  destruct (q x) eqn:Hx.
  - exists [], l. repeat split; [done|]. intros y Hy. inversion Hy.
  - destruct (RSVP.findOneAndDelete q l) as [[d|] l'].
    + destruct IH as (l1 & l2 & -> & -> & Hd & Hl1).
      exists (x :: l1), l2. repeat split; [done|].
      intros y Hy. apply elem_of_cons in Hy as [->|Hy]; auto.
    + destruct IH as [-> IH]. done.
Qed.

Lemma countDocuments_app q l1 l2 :
  RSVP.countDocuments q (l1 ++ l2) =
  (RSVP.countDocuments q l1 + RSVP.countDocuments q l2)%nat.
Proof. unfold RSVP.countDocuments. by rewrite List.filter_app, length_app. Qed.

Lemma countDocuments_cons q d l :
  RSVP.countDocuments q (d :: l) =
  ((if q d then 1 else 0) + RSVP.countDocuments q l)%nat.
Proof. unfold RSVP.countDocuments. simpl. by destruct (q d). Qed.

Lemma countDocuments_zero q coll :
  (forall d, d ∈ coll -> q d = false) -> RSVP.countDocuments q coll = 0%nat.
Proof.
  induction coll as [|x l IH]; intros H; [done|].
  rewrite countDocuments_cons, (H x (list_elem_of_here _ _)), IH; [done|].
  intros d Hd. apply H. by apply list_elem_of_further.
Qed.

Lemma existsb_false q coll :
  (forall d, d ∈ coll -> q d = false) -> existsb q coll = false.
Proof.
  induction coll as [|x l IH]; intros H; [done|]. simpl.
  rewrite (H x (list_elem_of_here _ _)), IH; [done|].
  intros d Hd. apply H. by apply list_elem_of_further.
Qed.

Lemma existsb_false_inv q coll d :
  existsb q coll = false -> d ∈ coll -> q d = false.
Proof.
  intros H Hd. destruct (q d) eqn:Hq; [|done].
  assert (existsb q coll = true); [|congruence].
  apply existsb_exists. exists d. split; [by apply list_elem_of_In | done].
Qed.

End Queries.

Section Gate.

Implicit Types (coll : gmap nat Event.doc) (ev : Event.doc).

Lemma gate_Some e u coll ev' coll' :
  gate e u coll = (Some ev', coll') ->
  exists ev, coll !! e = Some ev /\
    Event.currentAttendees ev < Event.capacity ev /\
    ev' = Event.addToSet_attendees u (Event.inc_currentAttendees 1 ev) /\
    coll' = <[e := ev']> coll.
Proof.
  unfold gate, Event.findOneAndUpdate. intros H.
  destruct (coll !! e) as [ev|] eqn:He; [|done].
  case_bool_decide; [|done]. inversion H; subst. by exists ev.
Qed.

Lemma gate_None e u coll coll' :
  gate e u coll = (None, coll') ->
  coll' = coll /\
  (coll !! e = None \/
   exists ev, coll !! e = Some ev /\ Event.capacity ev <= Event.currentAttendees ev).
Proof.
  unfold gate, Event.findOneAndUpdate. intros H.
  destruct (coll !! e) as [ev|] eqn:He.
  - case_bool_decide; [done|]. inversion H. split; [done|].
    right. exists ev. split; [done|lia].
  - inversion H. auto.
Qed.

Lemma gate_open e u coll ev :
  coll !! e = Some ev -> Event.currentAttendees ev < Event.capacity ev ->
  gate e u coll =
  (Some (Event.addToSet_attendees u (Event.inc_currentAttendees 1 ev)),
   <[e := Event.addToSet_attendees u (Event.inc_currentAttendees 1 ev)]> coll).
Proof.
  intros He Hlt. unfold gate, Event.findOneAndUpdate. rewrite He.
  by rewrite bool_decide_eq_true_2.
Qed.

Lemma release_Some e u coll ev' coll' :
  release e u coll = (Some ev', coll') ->
  exists ev, coll !! e = Some ev /\
    ev' = Event.pull_attendees u (Event.inc_currentAttendees (-1) ev) /\
    coll' = <[e := ev']> coll.
Proof.
  unfold release, Event.findByIdAndUpdate, Event.findOneAndUpdate. intros H.
  destruct (coll !! e) as [ev|] eqn:He; [|done].
  inversion H; subst. by exists ev.
Qed.

Lemma release_None e u coll coll' :
  release e u coll = (None, coll') -> coll' = coll /\ coll !! e = None.
Proof.
  unfold release, Event.findByIdAndUpdate, Event.findOneAndUpdate. intros H.
  destruct (coll !! e) as [ev|] eqn:He; [done|]. by inversion H.
Qed.

End Gate.

(** * The handlers as tasks and as functions *)

Lemma create_unfold u e coll :
  RSVP.create u e coll =
  match RSVP.pre_save_duplicate (RSVP.mk u e RSVP.confirmed None) coll with
  | Some err => inl err
  | None => RSVP.insertOne (RSVP.mk u e RSVP.confirmed None) coll
  end.
Proof. reflexivity. Qed.

Lemma run_alone_Join e u db :
  run_alone (Join e u) db =
  let '(db', r) := createRSVP e u db in (db', Responded r).
Proof.
  unfold run_alone, createRSVP. simpl.
  destruct (RSVP.findOne _ _) as [d|] eqn:Hf; simpl; [done|].
  destruct (gate e u (events db)) as [[ev|] evs']; simpl; [|done].
  rewrite create_unfold. unfold RSVP.pre_save_duplicate. simpl. rewrite Hf.
  unfold step. simpl.
  destruct (RSVP.insertOne _ _) as [[]|l]; done.
Qed.

Lemma run_alone_Leave e u db :
  run_alone (Leave e u) db =
  let '(db', r) := cancelRSVP e u db in (db', Responded r).
Proof.
  unfold run_alone, cancelRSVP. simpl.
  destruct (RSVP.findOneAndDelete _ _) as [[d|] l]; simpl; [|done].
  destruct (release e u (events db)) as [[ev|] evs']; done.
Qed.

Lemma run_alone_Status e u db :
  run_alone (Status e u) db =
  let '(db', r) := checkRSVPStatus e u db in (db', Responded r).
Proof. reflexivity. Qed.

(** * Invariants of the store under every schedule *)

Section Invariant.

Variable Inv : DB -> Prop.
Hypothesis Inv_step : forall t db, Inv db -> Inv (step t db).1.

Lemma resume_invariant i (s : Server) : Inv s.1 -> Inv (resume i s).1.
Proof.
  intros H. unfold resume. destruct (s.2 !! i) as [t|]; [|done].
  specialize (Inv_step t s.1 H). by destruct (step t s.1).
Qed.

Lemma exec_invariant schedule (s : Server) : Inv s.1 -> Inv (exec schedule s).1.
Proof.
  revert s. induction schedule as [|i l IH]; intros s H; [done|].
  simpl. apply IH. by apply resume_invariant.
Qed.

End Invariant.


Lemma unique_index_step t db :
  unique_index (rsvps db) -> unique_index (rsvps (step t db).1).
Proof.
  intros H. destruct t; simpl; try done.
  - by destruct (RSVP.findOne _ _).
  - by destruct (gate _ _ _) as [[ev'|] evs'].
  - by destruct (RSVP.pre_save_duplicate _ _) as [[]|].
  - unfold RSVP.insertOne. simpl.
    destruct (existsb _ _) eqn:Hex; [done|]. simpl.
    intros u e. rewrite countDocuments_app, countDocuments_cons. simpl.
    destruct (RSVP.q_pair u e _) eqn:Hq.
    + apply q_pair_spec in Hq as [<- <-]. simpl.
      rewrite (countDocuments_zero (RSVP.q_pair userId eventId) (rsvps db));
        [unfold RSVP.countDocuments; simpl; lia|].
      intros d Hd. by eapply existsb_false_inv.
    + specialize (H u e). unfold RSVP.countDocuments in *. simpl. lia.
  - pose proof (findOneAndDelete_spec
      (RSVP.q_confirmed userId eventId) (rsvps db)) as Hd.
    destruct (RSVP.findOneAndDelete _ _) as [[d|] l]; [|done].
    destruct Hd as (l1 & l2 & Hl & -> & _). simpl.
    intros u e. specialize (H u e). rewrite Hl in H.
    rewrite countDocuments_app, countDocuments_cons in H.
    rewrite countDocuments_app. lia.
  - by destruct (release _ _ _) as [[ev'|] evs'].
Qed.

Lemma all_confirmed_step t db :
  all_confirmed (rsvps db) -> all_confirmed (rsvps (step t db).1).
Proof.
  unfold all_confirmed. intros H. destruct t; simpl; try done.
  - by destruct (RSVP.findOne _ _).
  - by destruct (gate _ _ _) as [[ev'|] evs'].
  - by destruct (RSVP.pre_save_duplicate _ _) as [[]|].
  - unfold RSVP.insertOne. destruct (existsb _ _); [done|]. simpl.
    apply Forall_app. split; [done|]. by apply Forall_singleton.
  - pose proof (findOneAndDelete_spec
      (RSVP.q_confirmed userId eventId) (rsvps db)) as Hd.
    destruct (RSVP.findOneAndDelete _ _) as [[d|] l]; [|done].
    destruct Hd as (l1 & l2 & Hl & -> & _). simpl.
    rewrite Hl in H. apply Forall_app in H as [H1 H2].
    apply Forall_cons in H2 as [_ H2]. apply Forall_app. done.
  - by destruct (release _ _ _) as [[ev'|] evs'].
Qed.

(** Every store reached from one without reservations, whatever requests
    arrive and however they interleave, holds confirmed records only, one
    per pair at most. *)
Lemma reachable_all_confirmed db requests schedule :
  rsvps db = [] -> all_confirmed (rsvps (exec schedule (boot db requests)).1).
Proof.
  intros H. apply (exec_invariant (fun db => all_confirmed (rsvps db))).
  - apply all_confirmed_step.
  - simpl. rewrite H. constructor.
Qed.

Lemma confirmed_le_pair u e coll :
  (RSVP.countDocuments (RSVP.q_confirmed u e) coll <=
   RSVP.countDocuments (RSVP.q_pair u e) coll)%nat.
Proof.
  induction coll as [|d l IH]; [done|].
  rewrite !countDocuments_cons.
  unfold RSVP.q_confirmed at 1. fold (RSVP.q_pair u e d).
  destruct (RSVP.q_pair u e d); simpl; [|done].
  destruct (RSVP.is_confirmed d); lia.
Qed.

(** Under [all_confirmed] the index key and the confirmed filter agree. *)
Lemma all_confirmed_q_pair u e coll d :
  all_confirmed coll -> d ∈ coll ->
  RSVP.q_pair u e d = RSVP.q_confirmed u e d.
Proof.
  intros H Hd. unfold all_confirmed in H. rewrite Forall_forall in H.
  unfold RSVP.q_confirmed, RSVP.is_confirmed. fold (RSVP.q_pair u e d).
  rewrite (bool_decide_eq_true_2 _ (H d Hd)). by rewrite andb_true_r.
Qed.

(** With confirmed records only, and none for the pair, [RSVP.create]
    cannot fail. *)
Lemma create_succeeds u e coll :
  all_confirmed coll -> ~ has_confirmed u e coll ->
  RSVP.create u e coll = inr (coll ++ [RSVP.mk u e RSVP.confirmed None]).
Proof.
  intros Hall Hno. apply findOne_confirmed_None in Hno.
  rewrite create_unfold. unfold RSVP.pre_save_duplicate. simpl. rewrite Hno.
  unfold RSVP.insertOne. simpl. rewrite existsb_false; [done|].
  intros d Hd. rewrite (all_confirmed_q_pair _ _ coll) by done.
  by eapply findOne_None in Hno.
Qed.

Lemma handle_run_alone r db :
  run_alone r db = let '(db', resp) := handle r db in (db', Responded resp).
Proof.
  destruct r; simpl;
    [apply run_alone_Join | apply run_alone_Leave | apply run_alone_Status].
Qed.

Section Alone.

Variable Inv : DB -> Prop.
Hypothesis Inv_step : forall t db, Inv db -> Inv (step t db).1.

Lemma handle_invariant r db : Inv db -> Inv (handle r db).1.
Proof.
  intros H. pose proof (handle_run_alone r db) as Hrun.
  destruct (handle r db) as [db' resp]. simpl.
  change db' with (db', Responded resp).1. rewrite <- Hrun.
  unfold run_alone.
  pose proof (Inv_step (start r) db H) as H1.
  destruct (step (start r) db) as [db1 t1].
  pose proof (Inv_step t1 db1 H1) as H2.
  destruct (step t1 db1) as [db2 t2].
  pose proof (Inv_step t2 db2 H2) as H3.
  destruct (step t2 db2) as [db3 t3].
  apply Inv_step, H3.
Qed.

End Alone.

(** * The two ledgers, one request at a time *)

Lemma q_event_confirmed_other e e' u :
  e' <> e -> RSVP.q_event_confirmed e' (RSVP.mk u e RSVP.confirmed None) = false.
Proof.
  intros Hne. unfold RSVP.q_event_confirmed. simpl.
  apply andb_false_iff. left. apply Nat.eqb_neq. congruence.
Qed.

Lemma q_event_confirmed_of_confirmed u e d :
  RSVP.q_confirmed u e d = true -> RSVP.q_event_confirmed e d = true.
Proof.
  rewrite q_confirmed_spec, q_event_confirmed_spec. tauto.
Qed.

Lemma q_event_confirmed_of_confirmed_other u e e' d :
  RSVP.q_confirmed u e d = true -> e' <> e -> RSVP.q_event_confirmed e' d = false.
Proof.
  rewrite q_confirmed_spec. intros (_ & He & _) Hne.
  destruct (RSVP.q_event_confirmed e' d) eqn:Hq; [|done].
  apply q_event_confirmed_spec in Hq as [Hq _]. congruence.
Qed.

Lemma createRSVP_counters_agree e u db :
  counters_agree db -> all_confirmed (rsvps db) ->
  counters_agree (createRSVP e u db).1.
Proof.
  intros Hagree Hall. unfold createRSVP.
  destruct (RSVP.findOne _ _) as [d|] eqn:Hf; [done|].
  destruct (gate e u (events db)) as [[ev'|] evs'] eqn:Hg; [|done].
  apply findOne_confirmed_None in Hf.
  rewrite create_succeeds by done. simpl.
  apply gate_Some in Hg as (ev & He & _ & -> & ->).
  intros e' x. simpl. rewrite lookup_insert, countDocuments_app.
  case_decide as Hdec.
  - subst e'. intros [= <-]. simpl. rewrite (Hagree _ _ He).
    unfold RSVP.countDocuments at 3. simpl.
    unfold RSVP.q_event_confirmed at 3. simpl. rewrite Nat.eqb_refl. simpl. lia.
  - intros Hx. rewrite (Hagree _ _ Hx).
    unfold RSVP.countDocuments at 3. simpl.
    rewrite q_event_confirmed_other by done. simpl. lia.
Qed.

Lemma cancelRSVP_counters_agree e u db :
  counters_agree db -> counters_agree (cancelRSVP e u db).1.
Proof.
  intros Hagree. unfold cancelRSVP.
  pose proof (findOneAndDelete_spec (RSVP.q_confirmed u e) (rsvps db)) as Hd.
  destruct (RSVP.findOneAndDelete _ _) as [[d|] l]; [|done].
  destruct Hd as (l1 & l2 & Hl & -> & Hq & _).
  destruct (release e u (events db)) as [[ev'|] evs'] eqn:Hr.
  - apply release_Some in Hr as (ev & He & -> & ->).
    intros e' x. simpl. rewrite lookup_insert. case_decide as Hdec.
    + subst e'. intros [= <-]. simpl. rewrite (Hagree _ _ He), Hl.
      rewrite !countDocuments_app, countDocuments_cons.
      rewrite (q_event_confirmed_of_confirmed _ _ _ Hq). lia.
    + intros Hx. rewrite (Hagree _ _ Hx), Hl.
      rewrite !countDocuments_app, countDocuments_cons.
      rewrite (q_event_confirmed_of_confirmed_other _ _ _ _ Hq) by done. done.
  - apply release_None in Hr as [_ He].
    intros e' x. simpl. intros Hx. rewrite (Hagree _ _ Hx), Hl.
    rewrite !countDocuments_app, countDocuments_cons.
    rewrite (q_event_confirmed_of_confirmed_other _ _ _ _ Hq); [done|].
    intros ->. congruence.
Qed.

Lemma handle_all_confirmed r db :
  all_confirmed (rsvps db) -> all_confirmed (rsvps (handle r db).1).
Proof.
  apply (handle_invariant (fun db => all_confirmed (rsvps db))).
  apply all_confirmed_step.
Qed.

Lemma handle_ledgers_agree r db :
  counters_agree db /\ all_confirmed (rsvps db) ->
  counters_agree (handle r db).1 /\ all_confirmed (rsvps (handle r db).1).
Proof.
  intros [Hagree Hall]. split; [|by apply handle_all_confirmed].
  destruct r; simpl.
  - by apply createRSVP_counters_agree.
  - by apply cancelRSVP_counters_agree.
  - done.
Qed.

Lemma fresh_db_counters_agree : counters_agree fresh_db.
Proof.
  intros e ev H. unfold fresh_db in H. simpl in H.
  apply lookup_singleton_Some in H as [<- <-]. reflexivity.
Defined.

Lemma fresh_db_within_capacity : within_capacity fresh_db.
Proof.
  intros e ev H. unfold fresh_db in H. simpl in H.
  apply lookup_singleton_Some in H as [<- <-]. simpl. lia.
Defined.

Lemma nil_all_confirmed : all_confirmed [].
Proof. constructor. Defined.

Lemma nil_unique_index : unique_index [].
Proof. intros u e. unfold RSVP.countDocuments. simpl. lia. Defined.

(** The capacity hook lets a document be saved exactly when its counter is
    within capacity. *)
Lemma pre_save_capacity_spec this :
  Event.pre_save_capacity this = Some this <->
  Event.currentAttendees this <= Event.capacity this.
Proof.
  unfold Event.pre_save_capacity. case_bool_decide; split; (done || lia).
Qed.

(** * Properties of the reservation engine *)




(** ** Join: what each outcome does to the counter *)

(** A Join answered before or at the gate leaves the whole store as it was. *)
Lemma createRSVP_FullOrMissing_unchanged e u db db' :
  createRSVP e u db = (db', FullOrMissing) -> db' = db.
Proof.
  unfold createRSVP.
  destruct (RSVP.findOne _ _) as [d|]; [done|].
  destruct (gate e u (events db)) as [[ev'|] evs']; [|by intros [= <-]].
  destruct (RSVP.create _ _ _) as [[]|l]; done.
Qed.

Lemma createRSVP_duplicate_found e u db :
  has_confirmed u e (rsvps db) -> createRSVP e u db = (db, AlreadyRSVPd).
Proof.
  intros H. apply findOne_confirmed_is_Some in H as [d Hd].
  unfold createRSVP. by rewrite Hd.
Qed.

(** A Join answered with 201 raised the counter of its event by one, and
    the reported spots are those left after it. *)
Lemma createRSVP_Created_increments e u db db' spots :
  createRSVP e u db = (db', Created spots) ->
  exists ev, events db !! e = Some ev /\
    attendeesOf e db' = Some (Event.currentAttendees ev + 1) /\
    spots = Event.capacity ev - (Event.currentAttendees ev + 1).
Proof.
  unfold createRSVP, attendeesOf.
  destruct (RSVP.findOne _ _) as [d|]; [done|].
  destruct (gate e u (events db)) as [[ev'|] evs'] eqn:Hg; [|done].
  apply gate_Some in Hg as (ev & He & _ & -> & ->).
  destruct (RSVP.create _ _ _) as [[]|l]; [done|].
  intros [= <- <-]. exists ev. simpl. by rewrite lookup_insert_eq.
Qed.

(** The path past the gate on which [RSVP.create] throws: the handler
    answers 400 and the store keeps the incremented event. *)
Lemma createRSVP_create_throws e u db ev :
  ~ has_confirmed u e (rsvps db) ->
  events db !! e = Some ev ->
  Event.currentAttendees ev < Event.capacity ev ->
  RSVP.create u e (rsvps db) = inl RSVP.E11000 ->
  createRSVP e u db =
  (mkDB (<[e := Event.addToSet_attendees u (Event.inc_currentAttendees 1 ev)]>
           (events db)) (rsvps db),
   AlreadyRSVPd).
Proof.
  intros Hno He Hlt Hc. apply findOne_confirmed_None in Hno.
  unfold createRSVP. by rewrite Hno, (gate_open _ _ _ _ He Hlt), Hc.
Qed.

(** C2, evaluated where the code departs from it. Two Joins of user 7 for
    event 1 (capacity 2, nobody attending) are in flight together; both pass
    the duplicate query and the gate, the first insert succeeds, and the
    duplicate hook of the second throws code 11000. The second request is
    answered 400, yet the counter stands at 2 with one confirmed record.
    Served alone, a Join for a pair whose record is in status cancelled hits
    the unique index after the gate and leaves the counter raised as well. *)
Theorem C2_failed_create_keeps_increment :
  (let s := exec [0; 1; 0; 1; 0; 0; 1]%nat (boot fresh_db [Join 1 7; Join 1 7]) in
   s.2 = [Responded (Created 1); Responded AlreadyRSVPd] /\
   attendeesOf 1 fresh_db = Some 0 /\
   attendeesOf 1 s.1 = Some 2 /\
   rsvps s.1 = [RSVP.mk 7 1 RSVP.confirmed None]) /\
  (let db := mkDB {[ 1%nat := ev0 2 0 Event.upcoming ]}
                  [RSVP.mk 7 1 RSVP.cancelled (Some 5)] in
   let '(db', r) := createRSVP 1 7 db in
   r = AlreadyRSVPd /\
   attendeesOf 1 db = Some 0 /\
   attendeesOf 1 db' = Some 1 /\
   rsvps db' = rsvps db).
Proof. by vm_compute. Qed.

(** ** The counter and the capacity *)

Lemma gate_number_whole capacity currentAttendees :
  gate_number (QArith_base.inject_Z capacity) currentAttendees =
  if bool_decide (currentAttendees < capacity) then Some (currentAttendees + 1)
  else None.
Proof.
  unfold gate_number, QArith_base.Qle_bool. simpl. rewrite !Z.mul_1_r.
  case_bool_decide as H.
  - apply Z.lt_nge, Z.leb_nle in H. by rewrite H.
  - apply Z.nlt_ge, Z.leb_le in H. by rewrite H.
Qed.

(** On a whole capacity the gate of the documents above is [gate_number]. *)
Lemma gate_number_agrees e u coll ev :
  coll !! e = Some ev ->
  Event.currentAttendees <$> (gate e u coll).1 =
  gate_number (QArith_base.inject_Z (Event.capacity ev))
              (Event.currentAttendees ev).
Proof.
  intros He. rewrite gate_number_whole.
  unfold gate, Event.findOneAndUpdate. rewrite He.
  by case_bool_decide.
Qed.

(** C3, evaluated where the code departs from it. A capacity of 2.5 passes
    the validators of the schema. The gate then matches at counters 0, 1
    and 2, since 2 is below 2.5, and its third match leaves the counter at
    3, above the capacity; only then does it stop matching. *)
Theorem C3_fractional_capacity_is_exceeded :
  let capacity := QArith_base.Qmake 5 2 in
  capacity_validators capacity = true /\
  gate_number capacity 0 = Some 1 /\
  gate_number capacity 1 = Some 2 /\
  gate_number capacity 2 = Some 3 /\
  gate_number capacity 3 = None /\
  QArith_base.Qlt capacity (QArith_base.inject_Z 3).
Proof. by vm_compute. Qed.



(** C4. Under the unique index on (user, event), no schedule of handlers
    reaches a ledger with two confirmed reservations of one pair; and a Join
    for a pair that has a confirmed reservation is answered 400 'already
    RSVP'd' with the store untouched. *)
Theorem C4_one_confirmed_per_pair :
  (forall db requests schedule u e,
     unique_index (rsvps db) ->
     (RSVP.countDocuments (RSVP.q_confirmed u e)
        (rsvps (exec schedule (boot db requests)).1) <= 1)%nat) /\
  (forall db e u,
     has_confirmed u e (rsvps db) ->
     createRSVP e u db = (db, AlreadyRSVPd) /\
     step (JoinFindOne e u) db = (db, Responded AlreadyRSVPd)).
Proof.
  split.
  - intros db requests schedule u e H.
    pose proof (exec_invariant (fun db => unique_index (rsvps db))
                  unique_index_step schedule (boot db requests) H) as Hu.
    specialize (Hu u e). pose proof (confirmed_le_pair u e
      (rsvps (exec schedule (boot db requests)).1)). lia.
  - intros db e u H. split; [by apply createRSVP_duplicate_found|].
    apply findOne_confirmed_is_Some in H as [d Hd]. simpl. by rewrite Hd.
Qed.

Lemma C4_one_confirmed_per_pair_witness :
  (RSVP.countDocuments (RSVP.q_confirmed 7 1)
     (rsvps (exec [0; 1; 0; 1; 0; 0; 1]%nat
               (boot fresh_db [Join 1 7; Join 1 7])).1) <= 1)%nat /\
  (let db := (createRSVP 1 7 fresh_db).1 in
   createRSVP 1 7 db = (db, AlreadyRSVPd) /\
   step (JoinFindOne 1 7) db = (db, Responded AlreadyRSVPd)).
Proof.
  split.
  - apply (proj1 C4_one_confirmed_per_pair). apply nil_unique_index.
  - apply (proj2 C4_one_confirmed_per_pair).
    exists (RSVP.mk 7 1 RSVP.confirmed None).
    repeat split. vm_compute. apply list_elem_of_here.
Defined.

(** ** Join and the status of the event *)

Lemma gate_with_status e u s coll :
  gate e u (alter (Event.set_status s) e coll) =
  let '(r, coll') := gate e u coll in
  (Event.set_status s <$> r, alter (Event.set_status s) e coll').
Proof.
  unfold gate, Event.findOneAndUpdate. rewrite lookup_alter_eq.
  destruct (coll !! e) as [ev|] eqn:He; simpl; [|done].
  case_bool_decide; simpl; [|done].
  by rewrite insert_alter_eq, alter_insert_eq.
Qed.

Lemma createRSVP_with_status e u s db :
  createRSVP e u (with_status e s db) =
  let '(db', r) := createRSVP e u db in (with_status e s db', r).
Proof.
  unfold createRSVP. simpl.
  destruct (RSVP.findOne _ _) as [d|]; [done|].
  rewrite gate_with_status.
  destruct (gate e u (events db)) as [[ev'|] evs']; simpl; [|done].
  destruct (RSVP.create _ _ _) as [[]|l]; done.
Qed.

(** C5 does not hold as stated: a cancelled event with a free spot accepts
    a Join, which raises its counter and records a confirmed reservation. *)
Lemma C5_cancelled_event_accepts_join :
  let db := mkDB {[ 1%nat := ev0 1 0 Event.cancelled ]} [] in
  createRSVP 1 7 db =
  (mkDB {[ 1%nat := Event.mk 1 1 [7%nat] Event.cancelled 0 ]}
        [RSVP.mk 7 1 RSVP.confirmed None],
   Created 0).
Proof. by vm_compute. Qed.

(** C5, as amended. Join is answered 400 'Event is full or does not exist'
    exactly when the user holds no confirmed reservation for the event and
    the event is missing or its counter is not below its capacity, and then
    the store is left as it was. The status of the event is not consulted:
    overwriting it with any value, cancelled and completed included, gives
    the same response and the same effect on the store. *)
Theorem C5_join_rejects_missing_or_full_only :
  (forall db e u,
     ((createRSVP e u db).2 = FullOrMissing <->
      ~ has_confirmed u e (rsvps db) /\
      (events db !! e = None \/
       exists ev, events db !! e = Some ev /\
         Event.capacity ev <= Event.currentAttendees ev)) /\
     ((createRSVP e u db).2 = FullOrMissing -> (createRSVP e u db).1 = db)) /\
  (forall db e u s,
     createRSVP e u (with_status e s db) =
     (with_status e s (createRSVP e u db).1, (createRSVP e u db).2)).
Proof.
  split.
  - intros db e u. split; [split|].
    + unfold createRSVP.
      destruct (RSVP.findOne _ _) as [d|] eqn:Hf; [done|].
      apply findOne_confirmed_None in Hf.
      destruct (gate e u (events db)) as [[ev'|] evs'] eqn:Hg.
      * destruct (RSVP.create _ _ _) as [[]|l]; done.
      * apply gate_None in Hg as [_ Hg]. done.
    + intros [Hno Hg]. apply findOne_confirmed_None in Hno.
      unfold createRSVP. rewrite Hno.
      unfold gate, Event.findOneAndUpdate.
      destruct Hg as [->|(ev & -> & Hfull)]; [done|].
      by rewrite bool_decide_eq_false_2 by lia.
    + intros H. destruct (createRSVP e u db) as [db' r] eqn:Hc.
      simpl in *. subst r. by apply createRSVP_FullOrMissing_unchanged in Hc.
  - intros db e u s. rewrite createRSVP_with_status.
    by destruct (createRSVP e u db).
Qed.

Lemma C5_join_rejects_missing_or_full_only_witness :
  let db := mkDB {[ 1%nat := ev0 1 1 Event.cancelled ]} [] in
  (createRSVP 1 7 db).2 = FullOrMissing /\ (createRSVP 1 7 db).1 = db.
Proof.
  assert ((createRSVP 1 7 (mkDB {[ 1%nat := ev0 1 1 Event.cancelled ]} [])).2
          = FullOrMissing) as H.
  { apply (proj1 C5_join_rejects_missing_or_full_only). split.
    - intros (d & Hd & _). inversion Hd.
    - right. exists (ev0 1 1 Event.cancelled). split; [reflexivity | simpl; lia]. }
  split; [exact H|].
  apply (proj1 C5_join_rejects_missing_or_full_only). exact H.
Defined.

(** ** The lifecycle hook *)

Lemma TimeClip_valid x : JSDate.valid x -> JSDate.TimeClip x = Some x.
Proof.
  intros H. unfold JSDate.TimeClip. by rewrite bool_decide_eq_true_2.
Qed.

Lemma TimeClip_invalid x : JSDate.maxTime < x -> JSDate.TimeClip x = None.
Proof.
  intros H. unfold JSDate.TimeClip. rewrite bool_decide_eq_false_2; [done|lia].
Qed.

(** C6 does not hold as stated: saving an event whose status is cancelled
    recomputes the status from the date like any other. *)
Lemma C6_cancelled_is_recomputed :
  let this := Event.mk 10 0 [] Event.cancelled 0 in
  Event.status this = Event.cancelled /\
  Event.status (Event.pre_save_status 1 this) = Event.ongoing.
Proof. by vm_compute. Qed.

(** C6, as amended. For valid dates the save hook sets the status by the
    piecewise rule: upcoming when [now < date], ongoing when
    [date <= now < date + 4h] and the end time [date + 4h] is itself a valid
    Date, completed when [now >= date + 4h]; the rest of the document is
    kept. The stored status is not consulted, so cancelled is overwritten as
    any other value is. Only when the end time is past the largest Date and
    [now >= date] does the hook leave the document as it is. *)
Theorem C6_pre_save_status_piecewise now this :
  JSDate.valid now -> JSDate.valid (Event.date this) ->
  (now < Event.date this \/ Event.date this + fourHours <= JSDate.maxTime ->
   Event.pre_save_status now this =
   Event.set_status (deriveStatus (Event.date this) fourHours now) this /\
   Event.status (Event.pre_save_status now this) <> Event.cancelled) /\
  (Event.date this <= now -> JSDate.maxTime < Event.date this + fourHours ->
   Event.pre_save_status now this = this).
Proof.
  intros Hnow Hdate. unfold Event.pre_save_status, JSDate.copy, JSDate.getTime.
  rewrite (TimeClip_valid _ Hnow), (TimeClip_valid _ Hdate). simpl.
  rewrite (TimeClip_valid _ Hdate). simpl.
  change (4 * 60 * 60 * 1000) with fourHours.
  unfold deriveStatus, JSDate.valid in *. split.
  - intros Hcase. case_bool_decide as Hlt; [done|].
    destruct Hcase as [Hcase|Hcase]; [lia|].
    rewrite TimeClip_valid by (unfold JSDate.valid, fourHours in *; lia).
    simpl. rewrite (bool_decide_eq_true_2 (now >= Event.date this)) by lia.
    simpl. case_bool_decide; [done|].
    by rewrite bool_decide_eq_true_2 by lia.
  - intros Hge Hover. rewrite bool_decide_eq_false_2 by lia.
    by rewrite (TimeClip_invalid _ Hover), andb_false_r.
Qed.

Lemma C6_pre_save_status_piecewise_witness :
  let this := Event.mk 10 0 [] Event.cancelled 7200000 in
  (Event.pre_save_status 0 this = Event.set_status Event.upcoming this /\
   Event.status (Event.pre_save_status 0 this) <> Event.cancelled) /\
  (Event.pre_save_status 7200000 this = Event.set_status Event.ongoing this /\
   Event.status (Event.pre_save_status 7200000 this) <> Event.cancelled) /\
  (Event.pre_save_status 21600000 this = Event.set_status Event.completed this /\
   Event.status (Event.pre_save_status 21600000 this) <> Event.cancelled).
Proof.
  repeat apply conj.
  - apply (C6_pre_save_status_piecewise 0 (Event.mk 10 0 [] Event.cancelled 7200000));
      unfold JSDate.valid, JSDate.maxTime, fourHours; simpl; lia.
  - apply (C6_pre_save_status_piecewise 0 (Event.mk 10 0 [] Event.cancelled 7200000));
      unfold JSDate.valid, JSDate.maxTime, fourHours; simpl; lia.
  - apply (C6_pre_save_status_piecewise 7200000 (Event.mk 10 0 [] Event.cancelled 7200000));
      unfold JSDate.valid, JSDate.maxTime, fourHours; simpl; lia.
  - apply (C6_pre_save_status_piecewise 7200000 (Event.mk 10 0 [] Event.cancelled 7200000));
      unfold JSDate.valid, JSDate.maxTime, fourHours; simpl; lia.
  - apply (C6_pre_save_status_piecewise 21600000 (Event.mk 10 0 [] Event.cancelled 7200000));
      unfold JSDate.valid, JSDate.maxTime, fourHours; simpl; lia.
  - apply (C6_pre_save_status_piecewise 21600000 (Event.mk 10 0 [] Event.cancelled 7200000));
      unfold JSDate.valid, JSDate.maxTime, fourHours; simpl; lia.
Defined.

(** ** Leave *)

Lemma findOneAndDelete_None q coll :
  RSVP.findOne q coll = None -> RSVP.findOneAndDelete q coll = (None, coll).
Proof.
  intros H. pose proof (findOneAndDelete_spec q coll) as Hd.
  destruct (RSVP.findOneAndDelete q coll) as [[d|] l].
  - destruct Hd as (l1 & l2 & -> & _ & Hq & _).
    assert (q d = false); [|congruence].
    eapply findOne_None; [exact H|]. apply elem_of_app. right.
    apply list_elem_of_here.
  - by destruct Hd as [-> _].
Qed.

(** Deleting the first match right after appending a match to a collection
    without one gives the collection back. *)
Lemma findOneAndDelete_appended q coll d :
  RSVP.findOne q coll = None -> q d = true ->
  RSVP.findOneAndDelete q (coll ++ [d]) = (Some d, coll).
Proof.
  intros H Hq. induction coll as [|x l IH]; simpl.
  - by rewrite Hq.
  - assert (q x = false) as Hx.
    { eapply findOne_None; [exact H | apply list_elem_of_here]. }
    rewrite Hx, IH; [done|].
    apply findOne_None. intros y Hy. eapply findOne_None; [exact H|].
    by apply list_elem_of_further.
Qed.

Lemma pull_inc_dec_counter u v ev :
  Event.currentAttendees
    (Event.pull_attendees u (Event.inc_currentAttendees (-1)
       (Event.addToSet_attendees v (Event.inc_currentAttendees 1 ev)))) =
  Event.currentAttendees ev.
Proof. simpl. lia. Qed.

(** C7. In a ledger of confirmed records (the only kind the handlers
    write), for a pair without a confirmed reservation and an event with a
    free spot, Join, Leave and Join again are answered 201, 200 and 201, and
    after the Leave the counter of the event and the reservation ledger are
    what they were before the first Join. *)
Theorem C7_join_leave_join db e u ev :
  all_confirmed (rsvps db) ->
  ~ has_confirmed u e (rsvps db) ->
  events db !! e = Some ev ->
  Event.currentAttendees ev < Event.capacity ev ->
  exists db1 db2 db3,
    createRSVP e u db =
      (db1, Created (Event.capacity ev - (Event.currentAttendees ev + 1))) /\
    cancelRSVP e u db1 =
      (db2, Cancelled (Event.capacity ev - Event.currentAttendees ev)) /\
    createRSVP e u db2 =
      (db3, Created (Event.capacity ev - (Event.currentAttendees ev + 1))) /\
    attendeesOf e db1 = Some (Event.currentAttendees ev + 1) /\
    attendeesOf e db2 = Some (Event.currentAttendees ev) /\
    rsvps db2 = rsvps db /\
    attendeesOf e db3 = Some (Event.currentAttendees ev + 1).
Proof.
  intros Hall Hno He Hlt.
  pose proof Hno as Hf. apply findOne_confirmed_None in Hf.
  set (new := RSVP.mk u e RSVP.confirmed None).
  assert (RSVP.q_confirmed u e new = true) as Hnew by (by apply q_confirmed_spec).
  set (ev1 := Event.addToSet_attendees u (Event.inc_currentAttendees 1 ev)).
  set (ev2 := Event.pull_attendees u (Event.inc_currentAttendees (-1) ev1)).
  set (ev3 := Event.addToSet_attendees u (Event.inc_currentAttendees 1 ev2)).
  exists (mkDB (<[e := ev1]> (events db)) (rsvps db ++ [new])),
         (mkDB (<[e := ev2]> (<[e := ev1]> (events db))) (rsvps db)),
         (mkDB (<[e := ev3]> (<[e := ev2]> (<[e := ev1]> (events db))))
               (rsvps db ++ [new])).
  assert (Event.currentAttendees ev2 = Event.currentAttendees ev) as Hcur2
    by apply pull_inc_dec_counter.
  assert (Event.capacity ev2 = Event.capacity ev) as Hcap2 by done.
  repeat split.
  - unfold createRSVP. rewrite Hf, (gate_open _ _ _ _ He Hlt).
    rewrite create_succeeds by done. done.
  - unfold cancelRSVP. simpl.
    rewrite (findOneAndDelete_appended _ _ _ Hf Hnew).
    unfold release, Event.findByIdAndUpdate, Event.findOneAndUpdate.
    rewrite lookup_insert_eq. fold ev2. by rewrite Hcur2, Hcap2.
  - unfold createRSVP. simpl. rewrite Hf.
    rewrite (gate_open e u _ ev2) by (by rewrite ?lookup_insert_eq, ?Hcur2, ?Hcap2).
    rewrite create_succeeds by done. fold ev3.
    replace (Event.capacity ev3) with (Event.capacity ev) by done.
    replace (Event.currentAttendees ev3) with (Event.currentAttendees ev + 1);
      [done|]. simpl. lia.
  - unfold attendeesOf. simpl. by rewrite lookup_insert_eq.
  - unfold attendeesOf. simpl. rewrite lookup_insert_eq. simpl. f_equal. lia.
  - unfold attendeesOf. simpl. rewrite lookup_insert_eq. simpl. f_equal. lia.
Qed.

Lemma C7_join_leave_join_witness :
  exists db1 db2 db3,
    createRSVP 1 7 fresh_db = (db1, Created 1) /\
    cancelRSVP 1 7 db1 = (db2, Cancelled 2) /\
    createRSVP 1 7 db2 = (db3, Created 1) /\
    attendeesOf 1 db1 = Some 1 /\
    attendeesOf 1 db2 = Some 0 /\
    rsvps db2 = rsvps fresh_db /\
    attendeesOf 1 db3 = Some 1.
Proof.
  apply (C7_join_leave_join fresh_db 1%nat 7%nat (ev0 2 0 Event.upcoming)).
  - apply nil_all_confirmed.
  - intros (d & Hd & _). inversion Hd.
  - reflexivity.
  - simpl. lia.
Defined.

(** C8. Leave for a pair without a confirmed reservation is answered 404
    'RSVP not found' and leaves the store, events and reservations alike,
    exactly as it was. *)
Theorem C8_leave_without_reservation db e u :
  ~ has_confirmed u e (rsvps db) ->
  cancelRSVP e u db = (db, RSVPNotFound) /\
  step (LeaveFindOneAndDelete e u) db = (db, Responded RSVPNotFound).
Proof.
  intros Hno. apply findOne_confirmed_None in Hno.
  unfold cancelRSVP. simpl. by rewrite (findOneAndDelete_None _ _ Hno).
Qed.

Lemma C8_leave_without_reservation_witness :
  let db := mkDB {[ 1%nat := ev0 2 1 Event.upcoming ]}
                 [RSVP.mk 8 1 RSVP.confirmed None] in
  cancelRSVP 1 7 db = (db, RSVPNotFound) /\
  step (LeaveFindOneAndDelete 1 7) db = (db, Responded RSVPNotFound).
Proof.
  apply C8_leave_without_reservation.
  intros (d & Hd & Hu & _). simpl in Hd.
  apply list_elem_of_singleton in Hd. subst d. simpl in Hu. lia.
Defined.

(** C9 does not hold as stated: after a successful Leave the record of the
    pair is gone from the ledger; no record with status cancelled exists. *)
Lemma C9_leave_removes_the_record :
  let db := mkDB {[ 1%nat := Event.mk 2 1 [7%nat] Event.upcoming 0 ]}
                 [RSVP.mk 7 1 RSVP.confirmed None] in
  createRSVP 1 7 fresh_db = (db, Created 1) /\
  cancelRSVP 1 7 db = (fresh_db, Cancelled 2) /\
  rsvps fresh_db = [].
Proof. by vm_compute. Qed.

(** C9, as amended. A successful Leave physically removes the first
    confirmed reservation record of the pair from the ledger: every other
    record stays as it was, none is given status cancelled and no
    cancellation date is written; under the unique index no record of the
    pair is left at all. *)
Theorem C9_leave_deletes_record db e u db' spots :
  cancelRSVP e u db = (db', Cancelled spots) ->
  exists d l1 l2,
    rsvps db = l1 ++ d :: l2 /\
    rsvps db' = l1 ++ l2 /\
    RSVP.user d = u /\ RSVP.event d = e /\ RSVP.status d = RSVP.confirmed /\
    ~ has_confirmed u e l1 /\
    RSVP.countDocuments (fun x => bool_decide (RSVP.status x = RSVP.cancelled))
      (rsvps db') =
    RSVP.countDocuments (fun x => bool_decide (RSVP.status x = RSVP.cancelled))
      (rsvps db) /\
    (unique_index (rsvps db) ->
     forall x, x ∈ rsvps db' -> ~ (RSVP.user x = u /\ RSVP.event x = e)).
Proof.
  unfold cancelRSVP.
  pose proof (findOneAndDelete_spec (RSVP.q_confirmed u e) (rsvps db)) as Hd.
  destruct (RSVP.findOneAndDelete _ _) as [[d|] l]; [|done].
  destruct Hd as (l1 & l2 & Hl & -> & Hq & Hl1).
  destruct (release e u (events db)) as [[ev'|] evs']; [|done].
  intros [= <- _]. simpl. exists d, l1, l2.
  apply q_confirmed_spec in Hq as (Hu & He & Hs).
  repeat split; try done.
  - by apply findOne_confirmed_None, findOne_None.
  - rewrite Hl, !countDocuments_app, countDocuments_cons, Hs. done.
  - intros Huniq x Hx [Hxu Hxe]. specialize (Huniq u e).
    rewrite Hl, countDocuments_app, countDocuments_cons in Huniq.
    assert (RSVP.q_pair u e d = true) as Hd by (by apply q_pair_spec).
    assert (RSVP.q_pair u e x = true) as Hxq by (by apply q_pair_spec).
    rewrite Hd in Huniq.
    apply elem_of_app in Hx as [Hx|Hx];
      apply list_elem_of_In, (in_split x) in Hx as (a & b & ->);
      rewrite countDocuments_app, countDocuments_cons, Hxq in Huniq; lia.
Qed.

Lemma C9_leave_deletes_record_witness :
  exists d l1 l2,
    [RSVP.mk 8 1 RSVP.confirmed None; RSVP.mk 7 1 RSVP.confirmed None]
      = l1 ++ d :: l2 /\
    [RSVP.mk 8 1 RSVP.confirmed None] = l1 ++ l2 /\
    RSVP.user d = 7%nat /\ RSVP.event d = 1%nat /\
    RSVP.status d = RSVP.confirmed /\
    ~ has_confirmed 7 1 l1 /\
    RSVP.countDocuments (fun x => bool_decide (RSVP.status x = RSVP.cancelled))
      [RSVP.mk 8 1 RSVP.confirmed None] =
    RSVP.countDocuments (fun x => bool_decide (RSVP.status x = RSVP.cancelled))
      [RSVP.mk 8 1 RSVP.confirmed None; RSVP.mk 7 1 RSVP.confirmed None] /\
    (unique_index
       [RSVP.mk 8 1 RSVP.confirmed None; RSVP.mk 7 1 RSVP.confirmed None] ->
     forall x, x ∈ [RSVP.mk 8 1 RSVP.confirmed None] ->
               ~ (RSVP.user x = 7%nat /\ RSVP.event x = 1%nat)).
Proof.
  apply (C9_leave_deletes_record
           (mkDB {[ 1%nat := Event.mk 2 2 [8%nat; 7%nat] Event.upcoming 0 ]}
                 [RSVP.mk 8 1 RSVP.confirmed None; RSVP.mk 7 1 RSVP.confirmed None])
           1%nat 7%nat
           (mkDB {[ 1%nat := Event.mk 2 1 [8%nat] Event.upcoming 0 ]}
                 [RSVP.mk 8 1 RSVP.confirmed None])
           1).
  by vm_compute.
Defined.

(** ** Status *)




(** * Further properties of the RSVP controller *)

(** ** No over-booking under any schedule *)

Lemma slots_in_flight_boot e requests :
  slots_in_flight e (start <$> requests) = 0%nat.
Proof.
  unfold slots_in_flight. induction requests as [|r l IH]; [done|].
  rewrite !fmap_cons. simpl. rewrite IH. by destruct r.
Qed.

Lemma slots_in_flight_insert e ts i t t' :
  ts !! i = Some t ->
  (slots_in_flight e (<[i := t']> ts) + holds_slot e t =
   slots_in_flight e ts + holds_slot e t')%nat.
Proof.
  unfold slots_in_flight. revert i.
  induction ts as [|x l IH]; intros [|i] H; try done.
  - injection H as ->. simpl. lia.
  - specialize (IH i H). simpl in *. unfold fmap in IH. lia.
Qed.

Lemma holds_slot_same e u ev :
  holds_slot e (JoinPreSave e u ev) = 1%nat /\
  holds_slot e (JoinInsert e u ev) = 1%nat /\
  holds_slot e (LeaveUpdate e u) = 1%nat.
Proof. simpl. by rewrite Nat.eqb_refl. Qed.

Lemma holds_slot_other e e' u ev :
  e' <> e ->
  holds_slot e (JoinPreSave e' u ev) = 0%nat /\
  holds_slot e (JoinInsert e' u ev) = 0%nat /\
  holds_slot e (LeaveUpdate e' u) = 0%nat.
Proof. intros H. simpl. apply Nat.eqb_neq in H. by rewrite H. Qed.

Lemma counters_cover_resume i s : counters_cover s -> counters_cover (resume i s).
Proof.
  destruct s as [db ts]. unfold resume. simpl.
  destruct (ts !! i) as [t|] eqn:Hi; [|done].
  intros Hc. unfold counters_cover in *. simpl in *.
  destruct t as [e0 u|e0 u|e0 u ev0|e0 u ev0|e0 u|e0 u|e0 u|r]; simpl.
  - (* JoinFindOne *)
    destruct (RSVP.findOne _ _); simpl; intros e ev He;
      pose proof (slots_in_flight_insert e ts i _ (Responded AlreadyRSVPd) Hi);
      pose proof (slots_in_flight_insert e ts i _ (JoinGate e0 u) Hi);
      specialize (Hc e ev He); simpl in *; lia.
  - (* JoinGate *)
    destruct (gate _ _ _) as [[ev'|] evs'] eqn:Hg; simpl.
    + apply gate_Some in Hg as (ev1 & He1 & _ & -> & ->).
      intros e ev. rewrite lookup_insert. case_decide as Hd.
      * subst e0. intros [= <-]. simpl.
        pose proof (slots_in_flight_insert e ts i _
          (JoinPreSave e u (Event.addToSet_attendees u
             (Event.inc_currentAttendees 1 ev1))) Hi) as Hs.
        destruct (holds_slot_same e u (Event.addToSet_attendees u
             (Event.inc_currentAttendees 1 ev1))) as (Hw & _ & _).
        rewrite Hw in Hs. specialize (Hc e ev1 He1). simpl in Hs. lia.
      * intros He.
        pose proof (slots_in_flight_insert e ts i _
          (JoinPreSave e0 u (Event.addToSet_attendees u
             (Event.inc_currentAttendees 1 ev1))) Hi) as Hs.
        destruct (holds_slot_other e e0 u (Event.addToSet_attendees u
             (Event.inc_currentAttendees 1 ev1)) Hd) as (Hw & _ & _).
        rewrite Hw in Hs. specialize (Hc e ev He). simpl in Hs. lia.
    + intros e ev He.
      pose proof (slots_in_flight_insert e ts i _ (Responded FullOrMissing) Hi).
      specialize (Hc e ev He). simpl in *. lia.
  - (* JoinPreSave *)
    destruct (RSVP.pre_save_duplicate _ _) as [[]|]; simpl; intros e ev He;
      specialize (Hc e ev He).
    + pose proof (slots_in_flight_insert e ts i _ (Responded AlreadyRSVPd) Hi).
      simpl in *. lia.
    + pose proof (slots_in_flight_insert e ts i _ (JoinInsert e0 u ev0) Hi).
      simpl in *. lia.
  - (* JoinInsert *)
    unfold RSVP.insertOne. destruct (existsb _ _); simpl; intros e ev He;
      specialize (Hc e ev He).
    + pose proof (slots_in_flight_insert e ts i _ (Responded AlreadyRSVPd) Hi).
      simpl in *. lia.
    + pose proof (slots_in_flight_insert e ts i _
        (Responded (Created (Event.capacity ev0 - Event.currentAttendees ev0))) Hi)
        as Hs.
      rewrite countDocuments_app. unfold RSVP.countDocuments at 2. simpl.
      destruct (decide (e0 = e)) as [->|Hne].
      * destruct (holds_slot_same e u ev0) as (_ & Hw & _). rewrite Hw in Hs.
        unfold RSVP.q_event_confirmed at 2. simpl. rewrite Nat.eqb_refl.
        simpl in *. lia.
      * destruct (holds_slot_other e e0 u ev0 Hne) as (_ & Hw & _).
        rewrite Hw in Hs. rewrite q_event_confirmed_other by done.
        simpl in *. lia.
  - (* LeaveFindOneAndDelete *)
    pose proof (findOneAndDelete_spec (RSVP.q_confirmed u e0) (rsvps db)) as Hd.
    destruct (RSVP.findOneAndDelete _ _) as [[d|] l]; simpl.
    + destruct Hd as (l1 & l2 & Hl & -> & Hq & _).
      intros e ev He. specialize (Hc e ev He).
      rewrite Hl, countDocuments_app, countDocuments_cons in Hc.
      rewrite countDocuments_app.
      pose proof (slots_in_flight_insert e ts i _ (LeaveUpdate e0 u) Hi) as Hs.
      destruct (decide (e0 = e)) as [->|Hne].
      * destruct (holds_slot_same e u (ev0 0 0 Event.upcoming)) as (_ & _ & Hw).
        rewrite Hw in Hs.
        rewrite (q_event_confirmed_of_confirmed _ _ _ Hq) in Hc.
        simpl in *. lia.
      * destruct (holds_slot_other e e0 u (ev0 0 0 Event.upcoming) Hne)
          as (_ & _ & Hw).
        rewrite Hw in Hs. simpl in *. destruct (RSVP.q_event_confirmed e d); lia.
    + intros e ev He. specialize (Hc e ev He).
      pose proof (slots_in_flight_insert e ts i _ (Responded RSVPNotFound) Hi).
      simpl in *. lia.
  - (* LeaveUpdate *)
    destruct (release _ _ _) as [[ev'|] evs'] eqn:Hr; simpl.
    + apply release_Some in Hr as (ev1 & He1 & -> & ->).
      intros e ev. rewrite lookup_insert. case_decide as Hd.
      * subst e0. intros [= <-]. simpl.
        pose proof (slots_in_flight_insert e ts i _
          (Responded (Cancelled (Event.capacity ev1 -
             (Event.currentAttendees ev1 + -1)))) Hi) as Hs.
        destruct (holds_slot_same e u (ev0 0 0 Event.upcoming)) as (_ & _ & Hw).
        rewrite Hw in Hs. specialize (Hc e ev1 He1). simpl in *. lia.
      * intros He.
        pose proof (slots_in_flight_insert e ts i _
          (Responded (Cancelled (Event.capacity ev1 -
             (Event.currentAttendees ev1 + -1)))) Hi) as Hs.
        specialize (Hc e ev He). simpl in *. lia.
    + intros e ev He. specialize (Hc e ev He).
      pose proof (slots_in_flight_insert e ts i _ (Responded EventNotFound) Hi).
      simpl in *. lia.
  - (* StatusFindOne *)
    intros e ev He. specialize (Hc e ev He).
    pose proof (slots_in_flight_insert e ts i _
      (Responded (StatusOf
         (bool_decide (is_Some (RSVP.findOne (RSVP.q_confirmed u e0) (rsvps db))))
         (RSVP.findOne (RSVP.q_confirmed u e0) (rsvps db)))) Hi).
    simpl in *. lia.
  - (* Responded *)
    intros e ev He. specialize (Hc e ev He).
    pose proof (slots_in_flight_insert e ts i _ (Responded r) Hi).
    simpl in *. lia.
Qed.

Lemma counters_cover_exec schedule s :
  counters_cover s -> counters_cover (exec schedule s).
Proof.
  revert s. induction schedule as [|i l IH]; intros s H; [done|].
  simpl. apply IH. by apply counters_cover_resume.
Qed.

(** X1. Whatever requests arrive and however their store operations
    interleave, from a store in which no counter is below the number of
    confirmed reservations of its event, every store that is reached has,
    for every event, no more confirmed reservations than the counter says:
    the ledger never holds a confirmed reservation that the counter, and
    so the gate, has not accounted for. *)
Theorem X1_confirmed_never_exceed_counter db requests schedule :
  (forall e ev, events db !! e = Some ev ->
     Z.of_nat (RSVP.countDocuments (RSVP.q_event_confirmed e) (rsvps db))
     <= Event.currentAttendees ev) ->
  forall e ev, events (exec schedule (boot db requests)).1 !! e = Some ev ->
    Z.of_nat (RSVP.countDocuments (RSVP.q_event_confirmed e)
                (rsvps (exec schedule (boot db requests)).1))
    <= Event.currentAttendees ev.
Proof.
  intros Hcount e ev He.
  assert (counters_cover (boot db requests)) as H0.
  { intros e' ev' He'. simpl. rewrite slots_in_flight_boot.
    specialize (Hcount e' ev' He'). simpl in *. lia. }
  pose proof (counters_cover_exec schedule _ H0 e ev He). lia.
Qed.

Lemma X1_confirmed_never_exceed_counter_witness :
  let s := exec [0; 1; 2; 0; 1; 2; 0; 1; 2; 0; 1; 2; 3; 3]%nat
             (boot fresh_db [Join 1 7; Join 1 8; Join 1 9; Leave 1 8]) in
  let ev := Event.mk 2 1 [7%nat] Event.upcoming 0 in
  events s.1 !! 1%nat = Some ev /\
  Z.of_nat (RSVP.countDocuments (RSVP.q_event_confirmed 1) (rsvps s.1))
  <= Event.currentAttendees ev.
Proof.
  split; [by vm_compute|].
  apply (X1_confirmed_never_exceed_counter fresh_db
           [Join 1 7; Join 1 8; Join 1 9; Leave 1 8]
           [0; 1; 2; 0; 1; 2; 0; 1; 2; 0; 1; 2; 3; 3]%nat).
  - intros e ev H. rewrite (fresh_db_counters_agree e ev H). lia.
  - by vm_compute.
Defined.

(** ** The attendees array *)

Lemma addToSet_NoDup u ev :
  NoDup (Event.attendees ev) ->
  NoDup (Event.attendees (Event.addToSet_attendees u ev)).
Proof.
  intros H. simpl. case_bool_decide as Hin; [done|].
  apply NoDup_app. repeat split; [done| |apply NoDup_singleton].
  intros x Hx Hx'. apply list_elem_of_singleton in Hx'. by subst.
Qed.

Lemma pull_elem_of u v ev :
  v ∈ Event.attendees (Event.pull_attendees u ev) <->
  v ∈ Event.attendees ev /\ v <> u.
Proof.
  simpl. rewrite !list_elem_of_In, filter_In, negb_true_iff, Nat.eqb_neq. tauto.
Qed.

Lemma pull_NoDup u ev :
  NoDup (Event.attendees ev) ->
  NoDup (Event.attendees (Event.pull_attendees u ev)).
Proof.
  intros H. simpl. apply NoDup_ListNoDup, List.NoDup_filter.
  by apply NoDup_ListNoDup.
Qed.

Lemma attendees_nodup_step t db :
  attendees_nodup db -> attendees_nodup (step t db).1.
Proof.
  intros H. destruct t; simpl; try done.
  - by destruct (RSVP.findOne _ _).
  - destruct (gate _ _ _) as [[ev'|] evs'] eqn:Hg; [|done].
    apply gate_Some in Hg as (ev & He & _ & -> & ->).
    intros e' x. simpl. rewrite lookup_insert. case_decide.
    + intros [= <-]. apply addToSet_NoDup. simpl. by apply (H _ _ He).
    + apply H.
  - by destruct (RSVP.pre_save_duplicate _ _) as [[]|].
  - destruct (RSVP.insertOne _ _) as [[]|l]; done.
  - destruct (RSVP.findOneAndDelete _ _) as [[d|] l]; done.
  - destruct (release _ _ _) as [[ev'|] evs'] eqn:Hr; [|done].
    apply release_Some in Hr as (ev & He & -> & ->).
    intros e' x. simpl. rewrite lookup_insert. case_decide.
    + intros [= <-]. apply pull_NoDup. simpl. by apply (H _ _ He).
    + apply H.
Qed.

Lemma same_settings_step db0 t db :
  same_settings db0 db -> same_settings db0 (step t db).1.
Proof.
  intros H. destruct t; simpl; try done.
  - by destruct (RSVP.findOne _ _).
  - destruct (gate _ _ _) as [[ev'|] evs'] eqn:Hg; [|done].
    apply gate_Some in Hg as (ev & He & _ & -> & ->).
    intros e'. simpl. rewrite lookup_insert. case_decide.
    + subst. rewrite <- H, He. done.
    + apply H.
  - by destruct (RSVP.pre_save_duplicate _ _) as [[]|].
  - destruct (RSVP.insertOne _ _) as [[]|l]; done.
  - destruct (RSVP.findOneAndDelete _ _) as [[d|] l]; done.
  - destruct (release _ _ _) as [[ev'|] evs'] eqn:Hr; [|done].
    apply release_Some in Hr as (ev & He & -> & ->).
    intros e'. simpl. rewrite lookup_insert. case_decide.
    + subst. rewrite <- H, He. done.
    + apply H.
Qed.

(** X2. Under every schedule of Join, Leave and Status handlers the
    attendees array of an event never comes to hold a user twice. *)
Theorem X2_attendees_never_duplicated db requests schedule :
  attendees_nodup db ->
  attendees_nodup (exec schedule (boot db requests)).1.
Proof.
  intros H. by apply (exec_invariant attendees_nodup attendees_nodup_step).
Qed.

Lemma X2_attendees_never_duplicated_witness :
  attendees_nodup
    (exec [0; 1; 0; 1; 0; 0; 1; 2; 2]%nat
       (boot fresh_db [Join 1 7; Join 1 7; Leave 1 7])).1.
Proof.
  apply X2_attendees_never_duplicated.
  intros e ev H. unfold fresh_db in H. simpl in H.
  apply lookup_singleton_Some in H as [<- <-]. simpl. constructor.
Defined.

(** X3. The RSVP handlers never create or delete an event and never change
    the capacity, the status or the date of one: under every schedule the
    store reached has the events of the initial store with the settings
    they had. *)
Theorem X3_handlers_keep_event_settings db requests schedule e :
  settings <$> events (exec schedule (boot db requests)).1 !! e =
  settings <$> events db !! e.
Proof.
  apply (exec_invariant (same_settings db) (same_settings_step db)
           schedule (boot db requests)).
  by intros e'.
Qed.

(** ** The attendees array and the ledger, one request at a time *)

Lemma has_confirmed_app u e l1 l2 :
  has_confirmed u e (l1 ++ l2) <-> has_confirmed u e l1 \/ has_confirmed u e l2.
Proof.
  unfold has_confirmed. split.
  - intros (d & Hd & H). apply elem_of_app in Hd as [Hd|Hd]; [left|right];
      exists d; tauto.
  - intros [(d & Hd & H)|(d & Hd & H)]; exists d; rewrite elem_of_app; tauto.
Qed.

Lemma has_confirmed_singleton u e d :
  has_confirmed u e [d] <->
  RSVP.user d = u /\ RSVP.event d = e /\ RSVP.status d = RSVP.confirmed.
Proof.
  unfold has_confirmed. split.
  - intros (x & Hx & H). apply list_elem_of_singleton in Hx. by subst.
  - intros H. exists d. split; [apply list_elem_of_here | done].
Qed.

Lemma has_confirmed_cons u e d l :
  has_confirmed u e (d :: l) <-> has_confirmed u e [d] \/ has_confirmed u e l.
Proof. apply (has_confirmed_app u e [d] l). Qed.

(** Under the unique index, what is left after a record is cut out holds no
    record of its pair. *)
Lemma unique_index_cut l1 d l2 x :
  unique_index (l1 ++ d :: l2) -> x ∈ l1 ++ l2 ->
  ~ (RSVP.user x = RSVP.user d /\ RSVP.event x = RSVP.event d).
Proof.
  intros Huniq Hx [Hu He]. specialize (Huniq (RSVP.user d) (RSVP.event d)).
  rewrite countDocuments_app, countDocuments_cons in Huniq.
  assert (RSVP.q_pair (RSVP.user d) (RSVP.event d) d = true) as Hd
    by (by apply q_pair_spec).
  assert (RSVP.q_pair (RSVP.user d) (RSVP.event d) x = true) as Hxq
    by (by apply q_pair_spec).
  rewrite Hd in Huniq.
  apply elem_of_app in Hx as [Hx|Hx];
    apply list_elem_of_In, (in_split x) in Hx as (a & b & ->);
    rewrite countDocuments_app, countDocuments_cons, Hxq in Huniq; lia.
Qed.

Lemma pull_length u l :
  NoDup l -> u ∈ l ->
  (length (List.filter (fun a => negb (Nat.eqb a u)) l) + 1 = length l)%nat.
Proof.
  induction l as [|x l IH]; intros Hnd Hin; [by apply elem_of_nil in Hin|].
  apply NoDup_cons in Hnd as [Hx Hnd]. simpl.
  destruct (Nat.eqb x u) eqn:Hxu; simpl.
  - apply Nat.eqb_eq in Hxu. subst x.
    assert (List.filter (fun a => negb (Nat.eqb a u)) l = l) as ->; [|lia].
    clear IH Hnd Hin. induction l as [|y l IH]; [done|]. simpl.
    destruct (Nat.eqb y u) eqn:Hyu; simpl.
    + apply Nat.eqb_eq in Hyu. subst y. exfalso. apply Hx, list_elem_of_here.
    + f_equal. apply IH. intros H. apply Hx. by apply list_elem_of_further.
  - apply Nat.eqb_neq in Hxu. apply elem_of_cons in Hin as [->|Hin]; [done|].
    specialize (IH Hnd Hin). lia.
Qed.

Lemma createRSVP_roster e u db :
  ledger_sound db -> roster_agrees (createRSVP e u db).1.
Proof.
  intros (Hall & Huniq & Hros). unfold createRSVP.
  destruct (RSVP.findOne _ _) as [d|] eqn:Hf; [done|].
  destruct (gate e u (events db)) as [[ev'|] evs'] eqn:Hg; [|done].
  apply findOne_confirmed_None in Hf.
  rewrite create_succeeds by done. simpl.
  apply gate_Some in Hg as (ev & He & _ & -> & ->).
  intros e' x. simpl. rewrite lookup_insert. case_decide as Hdec.
  - subst e'. intros [= <-]. destruct (Hros e ev He) as (Hnd & Hiff & Hlen).
    assert (u ∉ Event.attendees ev) as Hnot by (by rewrite Hiff).
    simpl. rewrite bool_decide_eq_false_2 by done. repeat split.
    + apply NoDup_app. repeat split; [done| |apply NoDup_singleton].
      intros y Hy Hy'. apply list_elem_of_singleton in Hy'. by subst.
    + rewrite elem_of_app, list_elem_of_singleton, Hiff.
      intros [H | ->]; apply has_confirmed_app; [by left|right].
      by apply has_confirmed_singleton.
    + rewrite elem_of_app, list_elem_of_singleton, Hiff.
      intros H. apply has_confirmed_app in H as [H|H]; [by left|right].
      apply has_confirmed_singleton in H as (H & _). by simpl in H.
    + rewrite length_app. simpl. lia.
  - intros Hx. destruct (Hros e' x Hx) as (Hnd & Hiff & Hlen).
    repeat split; try done.
    + intros H. apply has_confirmed_app. left. by apply Hiff.
    + intros H. apply has_confirmed_app in H as [H|H]; [by apply Hiff|].
      apply has_confirmed_singleton in H as (_ & H & _). simpl in H. done.
Qed.

Lemma cancelRSVP_roster e u db :
  ledger_sound db -> roster_agrees (cancelRSVP e u db).1.
Proof.
  intros (Hall & Huniq & Hros). unfold cancelRSVP.
  pose proof (findOneAndDelete_spec (RSVP.q_confirmed u e) (rsvps db)) as Hd.
  destruct (RSVP.findOneAndDelete _ _) as [[d|] l]; [|done].
  destruct Hd as (l1 & l2 & Hl & -> & Hq & _).
  apply q_confirmed_spec in Hq as (Hdu & Hde & Hds).
  rewrite Hl in Huniq.
  assert (forall v e', has_confirmed v e' (l1 ++ l2) <->
            has_confirmed v e' (rsvps db) /\ ~ (v = u /\ e' = e)) as Hcut.
  { intros v e'. rewrite Hl, !has_confirmed_app, has_confirmed_cons,
      has_confirmed_singleton. split.
    - intros H. split; [tauto|]. intros [-> ->].
      assert (has_confirmed u e (l1 ++ l2)) as (x & Hx & Hxu & Hxe & _)
        by (apply has_confirmed_app; tauto).
      apply (unique_index_cut _ _ _ _ Huniq Hx). split; congruence.
    - intros [[H|[H|H]] Hne]; [tauto| |tauto].
      exfalso. apply Hne. destruct H as (<- & <- & _). done. }
  destruct (release e u (events db)) as [[ev'|] evs'] eqn:Hr.
  - apply release_Some in Hr as (ev & He & -> & ->).
    intros e' x. simpl. rewrite lookup_insert. case_decide as Hdec.
    + subst e'. intros [= <-]. destruct (Hros e ev He) as (Hnd & Hiff & Hlen).
      assert (u ∈ Event.attendees ev) as Hin.
      { apply Hiff. exists d. rewrite Hl, elem_of_app, elem_of_cons. tauto. }
      split; [by apply pull_NoDup|]. split.
      * intros v. rewrite pull_elem_of. simpl. rewrite Hiff, Hcut. 
        split; [intros [H Hne]; split; [done|tauto] |].
        intros [H Hne]. split; [done|]. intros ->. tauto.
      * simpl. pose proof (pull_length u _ Hnd Hin). lia.
    + intros Hx. destruct (Hros e' x Hx) as (Hnd & Hiff & Hlen).
      repeat split; try done.
      * intros H. apply Hcut. split; [by apply Hiff|]. intros [_ ->]. done.
      * intros H. apply Hiff. by apply Hcut in H as [H _].
  - apply release_None in Hr as [_ He].
    intros e' x. simpl. intros Hx. destruct (Hros e' x Hx) as (Hnd & Hiff & Hlen).
    repeat split; try done.
    + intros H. apply Hcut. split; [by apply Hiff|]. intros [_ ->]. congruence.
    + intros H. apply Hiff. by apply Hcut in H as [H _].
Qed.

Lemma handle_ledger_sound r db : ledger_sound db -> ledger_sound (handle r db).1.
Proof.
  intros H. pose proof H as (Hall & Huniq & Hros). split; [|split].
  - by apply handle_all_confirmed.
  - by apply (handle_invariant (fun db => unique_index (rsvps db))
                unique_index_step).
  - destruct r; simpl; [by apply createRSVP_roster | by apply cancelRSVP_roster | done].
Qed.

Lemma serve_all_ledger_sound requests db :
  ledger_sound db -> ledger_sound (serve_all requests db).
Proof.
  revert db. induction requests as [|r l IH]; intros db H; [done|].
  simpl. by apply IH, handle_ledger_sound.
Qed.

Lemma isUserAttending_spec u ev :
  isUserAttending u ev = true <-> u ∈ Event.attendees ev.
Proof.
  unfold isUserAttending. rewrite existsb_exists. split.
  - intros (x & Hx & Heq). apply Nat.eqb_eq in Heq. subst.
    by apply list_elem_of_In.
  - intros H. exists u. split; [by apply list_elem_of_In | apply Nat.eqb_refl].
Qed.

Lemma fresh_db_ledger_sound : ledger_sound fresh_db.
Proof.
  split; [apply nil_all_confirmed|]. split; [apply nil_unique_index|].
  intros e ev H. unfold fresh_db in H. simpl in H.
  apply lookup_singleton_Some in H as [<- <-]. simpl.
  split; [constructor|]. split; [|done].
  intros u. split.
  - intros Hu. by apply elem_of_nil in Hu.
  - intros (d & Hd & _). by apply elem_of_nil in Hd.
Defined.

(** X4. Served one at a time from a store in which the reservations are all
    confirmed, unique per pair, and every attendees array lists exactly the
    users with a confirmed reservation, Join, Leave and Status keep it so:
    after any number of requests each attendees array holds, once each,
    exactly the users with a confirmed reservation for the event, and
    [currentAttendees] is its length. *)
Theorem X4_attendees_match_ledger requests db :
  ledger_sound db ->
  all_confirmed (rsvps (serve_all requests db)) /\
  unique_index (rsvps (serve_all requests db)) /\
  forall e ev, events (serve_all requests db) !! e = Some ev ->
    NoDup (Event.attendees ev) /\
    (forall u, u ∈ Event.attendees ev <->
               has_confirmed u e (rsvps (serve_all requests db))) /\
    Event.currentAttendees ev = Z.of_nat (length (Event.attendees ev)).
Proof. intros H. by apply serve_all_ledger_sound. Qed.

Lemma X4_attendees_match_ledger_witness :
  let db := serve_all [Join 1 7; Join 1 8; Leave 1 7; Join 1 8; Leave 1 9] fresh_db in
  all_confirmed (rsvps db) /\
  unique_index (rsvps db) /\
  forall e ev, events db !! e = Some ev ->
    NoDup (Event.attendees ev) /\
    (forall u, u ∈ Event.attendees ev <-> has_confirmed u e (rsvps db)) /\
    Event.currentAttendees ev = Z.of_nat (length (Event.attendees ev)).
Proof. apply X4_attendees_match_ledger, fresh_db_ledger_sound. Defined.

(** X5. In such a store the two ways of asking whether a user attends
    agree: the status check answers [hasRSVP] with the value that
    [isUserAttending] has on the stored event. *)
Theorem X5_status_agrees_with_isUserAttending requests db e u ev :
  ledger_sound db ->
  events (serve_all requests db) !! e = Some ev ->
  exists r,
    checkRSVPStatus e u (serve_all requests db) =
    (serve_all requests db, StatusOf (isUserAttending u ev) r).
Proof.
  intros H He. apply (serve_all_ledger_sound requests) in H as (_ & _ & Hros).
  destruct (Hros e ev He) as (_ & Hiff & _).
  unfold checkRSVPStatus. eexists. f_equal. f_equal.
  apply eq_true_iff_eq.
  rewrite bool_decide_eq_true, findOne_confirmed_is_Some, isUserAttending_spec.
  by rewrite Hiff.
Qed.

Lemma X5_status_agrees_with_isUserAttending_witness :
  exists r,
    checkRSVPStatus 1 8 (serve_all [Join 1 7; Join 1 8; Leave 1 7] fresh_db) =
    (serve_all [Join 1 7; Join 1 8; Leave 1 7] fresh_db,
     StatusOf (isUserAttending 8 (Event.mk 2 1 [8%nat] Event.upcoming 0)) r).
Proof.
  apply X5_status_agrees_with_isUserAttending.
  - apply fresh_db_ledger_sound.
  - by vm_compute.
Defined.

(** ** Round trips *)

Lemma pull_absent u l :
  u ∉ l -> List.filter (fun a => negb (Nat.eqb a u)) l = l.
Proof.
  induction l as [|x l IH]; intros H; [done|]. simpl.
  destruct (Nat.eqb x u) eqn:Hxu; simpl.
  - apply Nat.eqb_eq in Hxu. subst. exfalso. apply H, list_elem_of_here.
  - f_equal. apply IH. intros Hin. apply H. by apply list_elem_of_further.
Qed.

Lemma join_leave_document u ev :
  u ∉ Event.attendees ev ->
  Event.pull_attendees u (Event.inc_currentAttendees (-1)
    (Event.addToSet_attendees u (Event.inc_currentAttendees 1 ev))) = ev.
Proof.
  intros H. destruct ev as [cap cur att st dt]. simpl in H.
  unfold Event.pull_attendees, Event.inc_currentAttendees,
    Event.addToSet_attendees. simpl.
  rewrite bool_decide_eq_false_2 by done.
  rewrite List.filter_app, (pull_absent _ _ H). simpl.
  rewrite Nat.eqb_refl. simpl. rewrite app_nil_r. f_equal. lia.
Qed.

(** X6. For a pair without a confirmed reservation, in a store whose
    attendees arrays match the ledger, a Join followed by a Leave gives back
    the store exactly as it was: every event document and every reservation
    record. *)
Theorem X6_join_then_leave_restores_store db e u ev :
  ledger_sound db ->
  ~ has_confirmed u e (rsvps db) ->
  events db !! e = Some ev ->
  Event.currentAttendees ev < Event.capacity ev ->
  exists db1,
    createRSVP e u db =
      (db1, Created (Event.capacity ev - (Event.currentAttendees ev + 1))) /\
    cancelRSVP e u db1 =
      (db, Cancelled (Event.capacity ev - Event.currentAttendees ev)).
Proof.
  intros (Hall & _ & Hros) Hno He Hlt.
  destruct (Hros e ev He) as (_ & Hiff & _).
  assert (u ∉ Event.attendees ev) as Hnot by (by rewrite Hiff).
  pose proof Hno as Hf. apply findOne_confirmed_None in Hf.
  set (new := RSVP.mk u e RSVP.confirmed None).
  assert (RSVP.q_confirmed u e new = true) as Hnew by (by apply q_confirmed_spec).
  set (ev1 := Event.addToSet_attendees u (Event.inc_currentAttendees 1 ev)).
  exists (mkDB (<[e := ev1]> (events db)) (rsvps db ++ [new])). split.
  - unfold createRSVP. rewrite Hf, (gate_open _ _ _ _ He Hlt).
    rewrite create_succeeds by done. done.
  - unfold cancelRSVP. simpl.
    rewrite (findOneAndDelete_appended _ _ _ Hf Hnew).
    unfold release, Event.findByIdAndUpdate, Event.findOneAndUpdate.
    rewrite lookup_insert_eq. unfold ev1.
    rewrite (join_leave_document _ _ Hnot).
    rewrite insert_insert_eq, (insert_id _ _ _ He). by destruct db.
Qed.

Lemma X6_join_then_leave_restores_store_witness :
  exists db1,
    createRSVP 1 7 fresh_db = (db1, Created 1) /\
    cancelRSVP 1 7 db1 = (fresh_db, Cancelled 2).
Proof.
  apply (X6_join_then_leave_restores_store fresh_db 1%nat 7%nat
           (ev0 2 0 Event.upcoming)).
  - apply fresh_db_ledger_sound.
  - intros (d & Hd & _). inversion Hd.
  - reflexivity.
  - simpl. lia.
Defined.

(** X7. Under the unique index a Leave is never effective twice in a row:
    whatever the first Leave of a pair answered, the same Leave repeated on
    the resulting store is answered 404 'RSVP not found' and changes
    nothing. *)
Theorem X7_repeated_leave_not_found db e u db' r :
  unique_index (rsvps db) ->
  cancelRSVP e u db = (db', r) ->
  cancelRSVP e u db' = (db', RSVPNotFound).
Proof.
  intros Huniq Hc.
  assert (~ has_confirmed u e (rsvps db')) as Hno.
  { revert Hc. unfold cancelRSVP.
    pose proof (findOneAndDelete_spec (RSVP.q_confirmed u e) (rsvps db)) as Hd.
    destruct (RSVP.findOneAndDelete _ _) as [[d|] l].
    - destruct Hd as (l1 & l2 & Hl & -> & Hq & _).
      apply q_confirmed_spec in Hq as (Hdu & Hde & _). rewrite Hl in Huniq.
      assert (~ has_confirmed u e (l1 ++ l2)) as Hno.
      { intros (x & Hx & Hxu & Hxe & _).
        apply (unique_index_cut _ _ _ _ Huniq Hx). split; congruence. }
      destruct (release e u (events db)) as [[ev'|] evs']; by intros [= <- _].
    - destruct Hd as [_ Hf]. intros [= <- _].
      by apply findOne_confirmed_None. }
  apply findOne_confirmed_None in Hno.
  unfold cancelRSVP. by rewrite (findOneAndDelete_None _ _ Hno).
Qed.

Lemma X7_repeated_leave_not_found_witness :
  let db := mkDB {[ 1%nat := Event.mk 2 1 [7%nat] Event.upcoming 0 ]}
                 [RSVP.mk 7 1 RSVP.confirmed None] in
  cancelRSVP 1 7 db = (fresh_db, Cancelled 2) /\
  cancelRSVP 1 7 fresh_db = (fresh_db, RSVPNotFound).
Proof.
  split; [by vm_compute|].
  apply (X7_repeated_leave_not_found
           (mkDB {[ 1%nat := Event.mk 2 1 [7%nat] Event.upcoming 0 ]}
                 [RSVP.mk 7 1 RSVP.confirmed None])
           1%nat 7%nat fresh_db (Cancelled 2)).
  - intros u e. unfold RSVP.countDocuments. simpl.
    destruct (RSVP.q_pair u e _); simpl; lia.
  - by vm_compute.
Defined.

(** ** What a successful Join and a successful Leave do to the event *)

(** X8. A Join answered 201 raised the counter of its event by one, left
    its capacity alone, made [isUserAttending] true for the user, appended
    one confirmed record for the pair to the ledger and touched no other
    event; the [availableSpots] it reports is the virtual of the stored
    event. *)
Theorem X8_join_success_effect db e u db' spots :
  createRSVP e u db = (db', Created spots) ->
  exists ev ev',
    events db !! e = Some ev /\ events db' !! e = Some ev' /\
    Event.currentAttendees ev' = Event.currentAttendees ev + 1 /\
    Event.capacity ev' = Event.capacity ev /\
    isUserAttending u ev' = true /\
    spots = Event.availableSpots ev' /\
    rsvps db' = rsvps db ++ [RSVP.mk u e RSVP.confirmed None] /\
    (forall e', e' <> e -> events db' !! e' = events db !! e').
Proof.
  unfold createRSVP.
  destruct (RSVP.findOne _ _) as [d|]; [done|].
  destruct (gate e u (events db)) as [[ev1|] evs'] eqn:Hg; [|done].
  apply gate_Some in Hg as (ev & He & Hlt & -> & ->).
  rewrite create_unfold.
  destruct (RSVP.pre_save_duplicate _ _) as [[]|]; [done|].
  unfold RSVP.insertOne. destruct (existsb _ _); [done|].
  intros [= <- <-]. simpl.
  exists ev, (Event.addToSet_attendees u (Event.inc_currentAttendees 1 ev)).
  rewrite lookup_insert_eq. repeat split; try done.
  - apply isUserAttending_spec. simpl. case_bool_decide; [done|].
    apply elem_of_app. right. by apply list_elem_of_singleton.
  - intros e' Hne. by rewrite lookup_insert_ne.
Qed.

Lemma X8_join_success_effect_witness :
  exists ev ev',
    events fresh_db !! 1%nat = Some ev /\
    events (mkDB {[ 1%nat := Event.mk 2 1 [7%nat] Event.upcoming 0 ]}
                 [RSVP.mk 7 1 RSVP.confirmed None]) !! 1%nat = Some ev' /\
    Event.currentAttendees ev' = Event.currentAttendees ev + 1 /\
    Event.capacity ev' = Event.capacity ev /\
    isUserAttending 7 ev' = true /\
    1 = Event.availableSpots ev' /\
    [RSVP.mk 7 1 RSVP.confirmed None] =
      rsvps fresh_db ++ [RSVP.mk 7 1 RSVP.confirmed None] /\
    (forall e', e' <> 1%nat ->
       events (mkDB {[ 1%nat := Event.mk 2 1 [7%nat] Event.upcoming 0 ]}
                    [RSVP.mk 7 1 RSVP.confirmed None]) !! e' =
       events fresh_db !! e').
Proof.
  apply (X8_join_success_effect fresh_db 1%nat 7%nat
           (mkDB {[ 1%nat := Event.mk 2 1 [7%nat] Event.upcoming 0 ]}
                 [RSVP.mk 7 1 RSVP.confirmed None]) 1).
  by vm_compute.
Defined.

(** X9. A Leave answered 200 lowered the counter of its event by one, left
    its capacity alone, made [isUserAttending] false for the user and
    touched no other event; the [availableSpots] it reports is the virtual
    of the stored event. *)
Theorem X9_leave_success_effect db e u db' spots :
  cancelRSVP e u db = (db', Cancelled spots) ->
  exists ev ev',
    events db !! e = Some ev /\ events db' !! e = Some ev' /\
    Event.currentAttendees ev' = Event.currentAttendees ev - 1 /\
    Event.capacity ev' = Event.capacity ev /\
    isUserAttending u ev' = false /\
    spots = Event.availableSpots ev' /\
    (forall e', e' <> e -> events db' !! e' = events db !! e').
Proof.
  unfold cancelRSVP.
  destruct (RSVP.findOneAndDelete _ _) as [[d|] l]; [|done].
  destruct (release e u (events db)) as [[ev1|] evs'] eqn:Hr; [|done].
  apply release_Some in Hr as (ev & He & -> & ->).
  intros [= <- <-]. simpl.
  exists ev, (Event.pull_attendees u (Event.inc_currentAttendees (-1) ev)).
  rewrite lookup_insert_eq. repeat split; try done.
  - apply not_true_is_false. rewrite isUserAttending_spec, pull_elem_of. tauto.
  - intros e' Hne. by rewrite lookup_insert_ne.
Qed.

Lemma X9_leave_success_effect_witness :
  exists ev ev',
    events (mkDB {[ 1%nat := Event.mk 2 1 [7%nat] Event.upcoming 0 ]}
                 [RSVP.mk 7 1 RSVP.confirmed None]) !! 1%nat = Some ev /\
    events fresh_db !! 1%nat = Some ev' /\
    Event.currentAttendees ev' = Event.currentAttendees ev - 1 /\
    Event.capacity ev' = Event.capacity ev /\
    isUserAttending 7 ev' = false /\
    2 = Event.availableSpots ev' /\
    (forall e', e' <> 1%nat ->
       events fresh_db !! e' =
       events (mkDB {[ 1%nat := Event.mk 2 1 [7%nat] Event.upcoming 0 ]}
                    [RSVP.mk 7 1 RSVP.confirmed None]) !! e').
Proof.
  apply (X9_leave_success_effect
           (mkDB {[ 1%nat := Event.mk 2 1 [7%nat] Event.upcoming 0 ]}
                 [RSVP.mk 7 1 RSVP.confirmed None]) 1%nat 7%nat fresh_db 2).
  by vm_compute.
Defined.

(** X10. A Leave for a pair with a confirmed reservation whose event is not
    stored still deletes the reservation record, and only then answers 404
    'Event not found'; the events are left as they were. *)
Theorem X10_leave_for_missing_event db e u :
  has_confirmed u e (rsvps db) ->
  events db !! e = None ->
  exists db',
    cancelRSVP e u db = (db', EventNotFound) /\
    events db' = events db /\
    (length (rsvps db') + 1 = length (rsvps db))%nat /\
    (RSVP.countDocuments (RSVP.q_confirmed u e) (rsvps db') + 1 =
     RSVP.countDocuments (RSVP.q_confirmed u e) (rsvps db))%nat.
Proof.
  intros Hhas He. apply findOne_confirmed_is_Some in Hhas as [d0 Hd0].
  unfold cancelRSVP.
  pose proof (findOneAndDelete_spec (RSVP.q_confirmed u e) (rsvps db)) as Hd.
  destruct (RSVP.findOneAndDelete _ _) as [[d|] l].
  - destruct Hd as (l1 & l2 & Hl & -> & Hq & _).
    unfold release, Event.findByIdAndUpdate, Event.findOneAndUpdate.
    rewrite He. eexists. split; [done|]. simpl. split; [done|].
    rewrite Hl, !countDocuments_app, countDocuments_cons, Hq, !length_app.
    simpl. lia.
  - destruct Hd as [_ Hd]. congruence.
Qed.

Lemma X10_leave_for_missing_event_witness :
  let db := mkDB {[ 1%nat := ev0 2 0 Event.upcoming ]}
                 [RSVP.mk 7 2 RSVP.confirmed None] in
  exists db',
    cancelRSVP 2 7 db = (db', EventNotFound) /\
    events db' = events db /\
    (length (rsvps db') + 1 = length (rsvps db))%nat /\
    (RSVP.countDocuments (RSVP.q_confirmed 7 2) (rsvps db') + 1 =
     RSVP.countDocuments (RSVP.q_confirmed 7 2) (rsvps db))%nat.
Proof.
  apply (X10_leave_for_missing_event
           (mkDB {[ 1%nat := ev0 2 0 Event.upcoming ]}
                 [RSVP.mk 7 2 RSVP.confirmed None]) 2%nat 7%nat).
  - exists (RSVP.mk 7 2 RSVP.confirmed None). repeat split.
    apply list_elem_of_here.
  - reflexivity.
Defined.

(** * The event controller *)

Section DeleteMany.

Implicit Types (q : RSVP.doc -> bool) (coll : list RSVP.doc) (d : RSVP.doc).

Lemma deleteMany_elem_of q coll d :
  d ∈ deleteMany q coll <-> d ∈ coll /\ q d = false.
Proof.
  unfold deleteMany. rewrite !list_elem_of_In, filter_In, negb_true_iff. tauto.
Qed.





Lemma deleteMany_has_confirmed q u e coll :
  has_confirmed u e (deleteMany q coll) <->
  exists d, d ∈ coll /\ q d = false /\ RSVP.user d = u /\ RSVP.event d = e /\
            RSVP.status d = RSVP.confirmed.
Proof.
  unfold has_confirmed. split.
  - intros (d & Hd & H). apply deleteMany_elem_of in Hd. exists d. tauto.
  - intros (d & Hd & Hq & H). exists d. rewrite deleteMany_elem_of. tauto.
Qed.

End DeleteMany.


Lemma q_user_spec u d : q_user u d = true <-> RSVP.user d = u.
Proof. unfold q_user. apply Nat.eqb_eq. Qed.

(** ** createEvent *)

Lemma Event_create_Some newId userId nowV nowH txt date capacity p event p' :
  Event_create newId userId nowV nowH txt date capacity p = Some (event, p') ->
  txt = TextValid /\
  JSDate.valid date /\ nowV < date /\
  1 <= capacity <= 10000 /\
  event = Event.pre_save_status nowH (Event.mk capacity 0 [] Event.upcoming date) /\
  events (store p) !! newId = None /\
  p' = mkPlatform (mkDB (<[newId := event]> (events (store p))) (rsvps (store p)))
                  (<[newId := userId]> (organizerOf p)).
Proof.
  unfold Event_create.
  destruct (JSDate.lt _ _) eqn:Hlt; simpl; [|done].
  destruct ((capacity <? 1) || (10000 <? capacity)) eqn:Hcap; [done|].
  apply orb_false_iff in Hcap as [H1 H2].
  apply Z.ltb_ge in H1. apply Z.ltb_ge in H2.
  destruct txt; try done.
  destruct (Event.pre_save_capacity _) as [ev|] eqn:Hsave; [|done].
  destruct (events (store p) !! newId) eqn:Hnew; [done|].
  intros [= <- <-].
  unfold Event.pre_save_capacity in Hsave.
  case_bool_decide; [done|]. injection Hsave as <-.
  unfold JSDate.lt, JSDate.TimeClip in Hlt.
  repeat case_bool_decide; try done.
Qed.

Lemma pre_save_status_fields now this :
  Event.capacity (Event.pre_save_status now this) = Event.capacity this /\
  Event.currentAttendees (Event.pre_save_status now this) =
    Event.currentAttendees this /\
  Event.attendees (Event.pre_save_status now this) = Event.attendees this /\
  Event.date (Event.pre_save_status now this) = Event.date this.
Proof.
  unfold Event.pre_save_status.
  destruct (JSDate.lt _ _); [done|].
  destruct (_ && _); [done|]. by destruct (JSDate.ge _ _).
Qed.

Lemma pre_save_status_before now this :
  now < Event.date this -> JSDate.valid (Event.date this) ->
  Event.status this = Event.upcoming ->
  Event.status (Event.pre_save_status now this) = Event.upcoming.
Proof.
  intros Hlt Hvalid Hst. unfold Event.pre_save_status, JSDate.copy, JSDate.getTime.
  rewrite (TimeClip_valid _ Hvalid). simpl. rewrite (TimeClip_valid _ Hvalid).
  unfold JSDate.TimeClip at 1 2 3 4. case_bool_decide; simpl.
  - by rewrite bool_decide_eq_true_2.
  - done.
Qed.

Lemma createEvent_Created newId userId nowV nowH body p p' id event :
  createEvent newId userId nowV nowH body p = (p', EventCreated id event) ->
  id = newId /\
  events (store p) !! newId = None /\
  Event.currentAttendees event = 0 /\ Event.attendees event = [] /\
  b_capacity body = Some (Event.capacity event) /\
  1 <= Event.capacity event <= 10000 /\
  b_date body = Some (Event.date event) /\ nowV < Event.date event /\
  (nowH < Event.date event -> Event.status event = Event.upcoming) /\
  events (store p') = <[newId := event]> (events (store p)) /\
  rsvps (store p') = rsvps (store p) /\
  organizerOf p' = <[newId := userId]> (organizerOf p).
Proof.
  unfold createEvent.
  destruct (texts body) eqn:Ht; destruct (b_date body) as [date|];
    destruct (b_capacity body) as [capacity|]; try done;
    (destruct ((date =? 0) || (capacity =? 0)); [done|]);
    (destruct (Event_create _ _ _ _ _ _ _ _) as [[ev q]|] eqn:Hc; [|done]);
    apply Event_create_Some in Hc
      as (Htxt & Hvalid & Hlt & Hcap & -> & Hnew & ->); try done.
  intros [= <- <- <-].
  destruct (pre_save_status_fields nowH
              (Event.mk capacity 0 [] Event.upcoming date))
    as (Hf1 & Hf2 & Hf3 & Hf4). simpl in *.
  rewrite Hf1, Hf2, Hf3, Hf4. repeat split; try done; try lia.
  intros H. by apply pre_save_status_before.
Qed.

(** X11. An event that [createEvent] answers 201 for is stored under an id
    that was free, with the requester as organizer, no attendees and a
    counter of 0, the capacity of the body within 1..10000 and the date of
    the body, which is later than the clock of the validator; its status is
    upcoming unless the clock has reached the date by the time the status
    hook runs. Nothing else in the store changes. *)
Theorem X11_created_event newId userId nowV nowH body p p' id event :
  createEvent newId userId nowV nowH body p = (p', EventCreated id event) ->
  id = newId /\
  events (store p) !! newId = None /\
  Event.currentAttendees event = 0 /\ Event.attendees event = [] /\
  b_capacity body = Some (Event.capacity event) /\
  1 <= Event.capacity event <= 10000 /\
  b_date body = Some (Event.date event) /\ nowV < Event.date event /\
  (nowH < Event.date event -> Event.status event = Event.upcoming) /\
  events (store p') = <[newId := event]> (events (store p)) /\
  rsvps (store p') = rsvps (store p) /\
  organizerOf p' = <[newId := userId]> (organizerOf p).
Proof. apply createEvent_Created. Qed.

Lemma X11_created_event_witness :
  let p := mkPlatform fresh_db {[ 1%nat := 5%nat ]} in
  let event := Event.mk 30 0 [] Event.upcoming 7200000 in
  2%nat = 2%nat /\
  events (store p) !! 2%nat = None /\
  Event.currentAttendees event = 0 /\ Event.attendees event = [] /\
  Some 30 = Some (Event.capacity event) /\
  1 <= Event.capacity event <= 10000 /\
  Some 7200000 = Some (Event.date event) /\ 1000 < Event.date event /\
  (1001 < Event.date event -> Event.status event = Event.upcoming) /\
  events (store (mkPlatform
                   (mkDB (<[2%nat := event]> (events fresh_db)) [])
                   (<[2%nat := 6%nat]> {[ 1%nat := 5%nat ]}))) =
    <[2%nat := event]> (events (store p)) /\
  rsvps (store (mkPlatform
                  (mkDB (<[2%nat := event]> (events fresh_db)) [])
                  (<[2%nat := 6%nat]> {[ 1%nat := 5%nat ]}))) = rsvps (store p) /\
  organizerOf (mkPlatform
                 (mkDB (<[2%nat := event]> (events fresh_db)) [])
                 (<[2%nat := 6%nat]> {[ 1%nat := 5%nat ]})) =
    <[2%nat := 6%nat]> (organizerOf p).
Proof.
  apply (X11_created_event 2%nat 6%nat 1000 1001
           (mkCreateBody TextValid (Some 7200000) (Some 30))
           (mkPlatform fresh_db {[ 1%nat := 5%nat ]})).
  by vm_compute.
Defined.


Lemma createEvent_cases newId userId nowV nowH body p :
  (createEvent newId userId nowV nowH body p).1 = p \/
  exists event,
    events (store p) !! newId = None /\
    Event.currentAttendees event = 0 /\ Event.attendees event = [] /\
    1 <= Event.capacity event /\
    (createEvent newId userId nowV nowH body p).1 =
    mkPlatform (mkDB (<[newId := event]> (events (store p))) (rsvps (store p)))
               (<[newId := userId]> (organizerOf p)).
Proof.
  destruct (createEvent newId userId nowV nowH body p) as [p' r] eqn:Hc.
  destruct r as [id event| | | | | | |].
  2-8: left; revert Hc; unfold createEvent;
    destruct (texts body); destruct (b_date body); destruct (b_capacity body);
    try (by intros [= <-]);
    (destruct (_ || _); [by intros [= <-]|]);
    (destruct (Event_create _ _ _ _ _ _ _ _) as [[ev q]|];
       [done | by intros [= <-]]).
  right. apply createEvent_Created in Hc
    as (-> & Hnew & Hcur & Hatt & _ & Hcap & _ & _ & _ & Hev & Hrs & Horg).
  exists event. simpl. repeat split; try done; try lia.
  destruct p' as [[evs rs] org]. simpl in *. by subst.
Qed.

(** X12. [createEvent] keeps the ledgers sound whatever it answers: the
    reservations and the other events are untouched, and a store whose
    counters are within capacity, agree with the confirmed reservations and
    whose reservations all reference stored events is again such a store
    afterwards, with an organizer recorded for every event. *)
Theorem X12_createEvent_keeps_ledgers newId userId nowV nowH body p :
  within_capacity (store p) -> counters_agree (store p) ->
  references_resolve (store p) -> organizers_recorded p ->
  let p' := (createEvent newId userId nowV nowH body p).1 in
  rsvps (store p') = rsvps (store p) /\
  (forall e, e <> newId -> events (store p') !! e = events (store p) !! e) /\
  within_capacity (store p') /\ counters_agree (store p') /\
  references_resolve (store p') /\ organizers_recorded p'.
Proof.
  intros Hcap Hagree Href Horg. simpl.
  destruct (createEvent_cases newId userId nowV nowH body p)
    as [->|(event & Hnew & Hcur & Hatt & Hc1 & ->)]; [done|]. simpl.
  split; [done|]. split; [by intros e He; rewrite lookup_insert_ne|].
  split; [|split; [|split]].
  - intros e ev. simpl. rewrite lookup_insert. case_decide.
    + intros [= <-]. lia.
    + apply Hcap.
  - intros e ev. simpl. rewrite lookup_insert. case_decide as Hd.
    + subst e. intros [= <-]. rewrite Hcur.
      rewrite countDocuments_zero; [done|].
      intros d Hd. destruct (RSVP.q_event_confirmed newId d) eqn:Hq; [|done].
      apply q_event_confirmed_spec in Hq as [Hq _].
      specialize (Href d Hd). rewrite Hq, Hnew in Href. by destruct Href.
    + apply Hagree.
  - intros d Hd. simpl in *. rewrite lookup_insert. case_decide; [done|].
    by apply Href.
  - intros e. simpl. rewrite !lookup_insert. case_decide; [|apply Horg].
    split; intros _; by eexists.
Qed.

Lemma X12_createEvent_keeps_ledgers_witness :
  let p := mkPlatform fresh_db {[ 1%nat := 5%nat ]} in
  let p' := (createEvent 2 6 1000 1001
               (mkCreateBody TextValid (Some 7200000) (Some 30)) p).1 in
  rsvps (store p') = rsvps (store p) /\
  (forall e, e <> 2%nat -> events (store p') !! e = events (store p) !! e) /\
  within_capacity (store p') /\ counters_agree (store p') /\
  references_resolve (store p') /\ organizers_recorded p'.
Proof.
  apply (X12_createEvent_keeps_ledgers 2%nat 6%nat 1000 1001
           (mkCreateBody TextValid (Some 7200000) (Some 30))
           (mkPlatform fresh_db {[ 1%nat := 5%nat ]})).
  - apply fresh_db_within_capacity.
  - apply fresh_db_counters_agree.
  - intros d Hd. by apply elem_of_nil in Hd.
  - intros id. simpl. unfold fresh_db. simpl.
    rewrite !lookup_singleton_is_Some. done.
Defined.

(** ** updateEvent *)



(** ** deleteEvent *)






(** ** deleteAccount *)

Lemma deleteAccount_events userId p id ev :
  events (store (deleteAccount userId p)) !! id = Some ev <->
  events (store p) !! id = Some ev /\ organizerOf p !! id <> Some userId.
Proof. unfold deleteAccount. simpl. by rewrite map_lookup_filter_Some. Qed.

Lemma deleteAccount_rsvps userId p d :
  d ∈ rsvps (store (deleteAccount userId p)) <->
  d ∈ rsvps (store p) /\ RSVP.user d <> userId.
Proof.
  unfold deleteAccount. simpl. rewrite deleteMany_elem_of.
  split; intros [Hd Hq]; (split; [done|]).
  - intros Hu. apply q_user_spec in Hu. congruence.
  - destruct (q_user userId d) eqn:H; [|done]. by apply q_user_spec in H.
Qed.



(** X17. [deleteAccount] does not cascade. A reservation that another user
    holds for an event of the deleted organizer stays in the ledger while
    its event is gone; and an event of another organizer that the deleted
    user was attending keeps its counter and its attendees array, the user
    included, while the reservation of the user is gone. *)
Theorem X17_deleteAccount_does_not_cascade userId p :
  let p' := deleteAccount userId p in
  (forall v e, has_confirmed v e (rsvps (store p)) -> v <> userId ->
     organizerOf p !! e = Some userId ->
     has_confirmed v e (rsvps (store p')) /\ events (store p') !! e = None) /\
  (forall e ev, events (store p) !! e = Some ev ->
     organizerOf p !! e <> Some userId ->
     events (store p') !! e = Some ev /\
     ~ has_confirmed userId e (rsvps (store p'))).
Proof.
  cbv zeta. split.
  - intros v e (d & Hd & Hu & He & Hs) Hne Ho. split.
    + exists d. rewrite deleteAccount_rsvps. repeat split; try done. congruence.
    + destruct (events (store (deleteAccount userId p)) !! e) as [ev|] eqn:Hev;
        [|done].
      apply deleteAccount_events in Hev as [_ Hev]. done.
  - intros e ev Hev Ho. split; [by apply deleteAccount_events|].
    intros (d & Hd & Hu & _). by apply deleteAccount_rsvps in Hd as [_ Hd].
Qed.

Lemma X17_deleteAccount_does_not_cascade_witness :
  let p := mkPlatform
             (mkDB {[ 1%nat := Event.mk 2 1 [7%nat] Event.upcoming 0;
                      2%nat := Event.mk 3 1 [5%nat] Event.upcoming 0 ]}
                   [RSVP.mk 7 1 RSVP.confirmed None;
                    RSVP.mk 5 2 RSVP.confirmed None])
             {[ 1%nat := 5%nat; 2%nat := 6%nat ]} in
  let p' := deleteAccount 5 p in
  (has_confirmed 7 1 (rsvps (store p')) /\ events (store p') !! 1%nat = None) /\
  (events (store p') !! 2%nat = Some (Event.mk 3 1 [5%nat] Event.upcoming 0) /\
   ~ has_confirmed 5 2 (rsvps (store p'))).
Proof.
  split.
  - apply (proj1 (X17_deleteAccount_does_not_cascade 5%nat
      (mkPlatform
             (mkDB {[ 1%nat := Event.mk 2 1 [7%nat] Event.upcoming 0;
                      2%nat := Event.mk 3 1 [5%nat] Event.upcoming 0 ]}
                   [RSVP.mk 7 1 RSVP.confirmed None;
                    RSVP.mk 5 2 RSVP.confirmed None])
             {[ 1%nat := 5%nat; 2%nat := 6%nat ]}))).
    + exists (RSVP.mk 7 1 RSVP.confirmed None). repeat split.
      apply list_elem_of_here.
    + lia.
    + reflexivity.
  - apply (proj2 (X17_deleteAccount_does_not_cascade 5%nat
      (mkPlatform
             (mkDB {[ 1%nat := Event.mk 2 1 [7%nat] Event.upcoming 0;
                      2%nat := Event.mk 3 1 [5%nat] Event.upcoming 0 ]}
                   [RSVP.mk 7 1 RSVP.confirmed None;
                    RSVP.mk 5 2 RSVP.confirmed None])
             {[ 1%nat := 5%nat; 2%nat := 6%nat ]}))).
    + reflexivity.
    + simpl. vm_compute. congruence.
Defined.

(** * The listings *)

Section ListingFacts.

Variable createdAt : RSVP.doc -> Z.

#[local] Instance createdAt_le_total :
  Total (fun a b : RSVP.doc => createdAt a <= createdAt b).
Proof. intros a b. lia. Qed.

#[local] Instance createdAt_le_trans :
  Transitive (fun a b : RSVP.doc => createdAt a <= createdAt b).
Proof. intros a b c. lia. Qed.

#[local] Instance createdAt_ge_total :
  Total (fun a b : RSVP.doc => createdAt b <= createdAt a).
Proof. intros a b. lia. Qed.

#[local] Instance createdAt_ge_trans :
  Transitive (fun a b : RSVP.doc => createdAt b <= createdAt a).
Proof. intros a b c. lia. Qed.

Lemma find_sorted_ascending_perm q coll :
  find_sorted_ascending createdAt q coll ≡ₚ List.filter q coll.
Proof. apply merge_sort_Permutation. Qed.

Lemma find_sorted_descending_perm q coll :
  find_sorted_descending createdAt q coll ≡ₚ List.filter q coll.
Proof. apply merge_sort_Permutation. Qed.

Lemma filter_elem_of (q : RSVP.doc -> bool) coll d :
  d ∈ List.filter q coll <-> d ∈ coll /\ q d = true.
Proof. by rewrite !list_elem_of_In, filter_In. Qed.

Lemma getEventAttendees_spec e db :
  let r := getEventAttendees createdAt e db in
  r.1 = db /\
  data r.2 ≡ₚ List.filter (RSVP.q_event_confirmed e) (rsvps db) /\
  (forall d, d ∈ data r.2 <->
     d ∈ rsvps db /\ RSVP.event d = e /\ RSVP.status d = RSVP.confirmed) /\
  StronglySorted (fun a b => createdAt a <= createdAt b) (data r.2) /\
  count r.2 = RSVP.countDocuments (RSVP.q_event_confirmed e) (rsvps db).
Proof.
  simpl. split; [done|]. split; [apply find_sorted_ascending_perm|].
  split; [|split].
  - intros d. rewrite find_sorted_ascending_perm, filter_elem_of,
      q_event_confirmed_spec. done.
  - apply StronglySorted_merge_sort; apply _.
  - unfold RSVP.countDocuments. by rewrite find_sorted_ascending_perm.
Qed.

Lemma getUserRSVPs_spec u status db :
  let r := getUserRSVPs createdAt u status db in
  r.1 = db /\
  (forall d, d ∈ data r.2 <->
     d ∈ rsvps db /\ RSVP.user d = u /\
     RSVP.status d = default RSVP.confirmed status) /\
  StronglySorted (fun a b => createdAt b <= createdAt a) (data r.2) /\
  count r.2 =
    RSVP.countDocuments (q_user_status u (default RSVP.confirmed status)) (rsvps db).
Proof.
  simpl. split; [done|]. split; [|split].
  - intros d. rewrite find_sorted_descending_perm, filter_elem_of.
    unfold q_user_status.
    rewrite andb_true_iff, Nat.eqb_eq, bool_decide_eq_true. done.
  - apply StronglySorted_merge_sort; apply _.
  - unfold RSVP.countDocuments. by rewrite find_sorted_descending_perm.
Qed.

End ListingFacts.

Lemma serve_all_ledgers_agree requests db :
  counters_agree db /\ all_confirmed (rsvps db) ->
  counters_agree (serve_all requests db) /\
  all_confirmed (rsvps (serve_all requests db)).
Proof.
  revert db. induction requests as [|r l IH]; intros db H; [done|].
  simpl. by apply IH, handle_ledgers_agree.
Qed.

(** X18. The attendee listing of an event does not change the store; it
    holds exactly the confirmed reservations of the event, each as often as
    it is stored, in ascending order of [createdAt], and [count] is their
    number. In a store that Join and Leave, served one at a time, have
    reached from one whose counters agreed with a ledger of confirmed
    records, [count] is the [currentAttendees] of the event. *)
Theorem X18_attendee_listing createdAt e requests db :
  let db' := serve_all requests db in
  let r := getEventAttendees createdAt e db' in
  r.1 = db' /\
  data r.2 ≡ₚ List.filter (RSVP.q_event_confirmed e) (rsvps db') /\
  (forall d, d ∈ data r.2 <->
     d ∈ rsvps db' /\ RSVP.event d = e /\ RSVP.status d = RSVP.confirmed) /\
  StronglySorted (fun a b => createdAt a <= createdAt b) (data r.2) /\
  count r.2 = length (data r.2) /\
  (counters_agree db -> all_confirmed (rsvps db) ->
   forall ev, events db' !! e = Some ev ->
     Z.of_nat (count r.2) = Event.currentAttendees ev).
Proof.
  cbv zeta.
  destruct (getEventAttendees_spec createdAt e (serve_all requests db))
    as (H1 & H2 & H3 & H4 & H5).
  split; [done|]. split; [done|]. split; [exact H3|]. split; [done|].
  split; [reflexivity|].
  intros Hagree Hall ev He. rewrite H5.
  destruct (serve_all_ledgers_agree requests db (conj Hagree Hall))
    as [Hagree' _].
  by rewrite (Hagree' e ev He).
Qed.

Lemma X18_attendee_listing_witness :
  let db' := serve_all [Join 1 7; Join 1 8; Leave 1 7] fresh_db in
  let r := getEventAttendees (fun d => Z.of_nat (RSVP.user d)) 1 db' in
  Z.of_nat (count r.2) = 1 /\
  data r.2 = [RSVP.mk 8 1 RSVP.confirmed None].
Proof.
  split; [|by vm_compute].
  pose proof (X18_attendee_listing (fun d => Z.of_nat (RSVP.user d)) 1%nat
                [Join 1 7; Join 1 8; Leave 1 7] fresh_db) as H.
  cbv zeta in H. destruct H as (_ & _ & _ & _ & _ & H).
  apply (H fresh_db_counters_agree nil_all_confirmed
           (Event.mk 2 1 [8%nat] Event.upcoming 0)).
  by vm_compute.
Defined.

(** X19. The listing of a user's reservations does not change the store; it
    holds exactly the reservations of the user with the status asked for,
    confirmed when none is given, newest first, and [count] is their
    number. In a ledger of confirmed records only, as the handlers keep it,
    a listing for any other status is empty. *)
Theorem X19_user_listing createdAt u status db :
  let r := getUserRSVPs createdAt u status db in
  r.1 = db /\
  (forall d, d ∈ data r.2 <->
     d ∈ rsvps db /\ RSVP.user d = u /\
     RSVP.status d = default RSVP.confirmed status) /\
  StronglySorted (fun a b => createdAt b <= createdAt a) (data r.2) /\
  count r.2 = length (data r.2) /\
  (all_confirmed (rsvps db) -> default RSVP.confirmed status <> RSVP.confirmed ->
   r.2 = mkListing 0 []).
Proof.
  cbv zeta.
  destruct (getUserRSVPs_spec createdAt u status db) as (H1 & H2 & H3 & H4).
  split; [done|]. split; [exact H2|]. split; [done|]. split; [reflexivity|].
  intros Hall Hst.
  assert (data (getUserRSVPs createdAt u status db).2 = []) as Hnil.
  { apply elem_of_nil_inv. intros d Hd. apply H2 in Hd as (Hd & _ & Hs).
    unfold all_confirmed in Hall. rewrite Forall_forall in Hall.
    specialize (Hall d Hd). congruence. }
  unfold getUserRSVPs in *. simpl in *. by rewrite Hnil.
Qed.

Lemma X19_user_listing_witness :
  let db := serve_all [Join 1 7; Join 1 8] fresh_db in
  (getUserRSVPs (fun d => Z.of_nat (RSVP.user d)) 7 (Some RSVP.cancelled) db).2
    = mkListing 0 [] /\
  (getUserRSVPs (fun d => Z.of_nat (RSVP.user d)) 7 None db).2
    = mkListing 1 [RSVP.mk 7 1 RSVP.confirmed None].
Proof.
  split; [|by vm_compute].
  pose proof (X19_user_listing (fun d => Z.of_nat (RSVP.user d)) 7%nat
                (Some RSVP.cancelled)
                (serve_all [Join 1 7; Join 1 8] fresh_db)) as H.
  cbv zeta in H. destruct H as (_ & _ & _ & _ & H).
  apply H.
  - repeat constructor.
  - done.
Defined.
